(** * Nagare core: component model, task driver, render dispatch, security helpers

    A shallow embedding of [nagare/component.py] and [nagare/security/__init__.py].

    Python objects are first-order values ([pyobj]); components are mutable
    objects and therefore live in a store ([heap]) and are named by
    references.  A stackless channel is a store cell too: it either has a
    tasklet blocked in [receive()] (recorded with the local variables of the
    suspended [Component.call] frame) or it is idle.  [Component.call] is
    split at its only suspension point, [self._channel.receive()], into
    [call_suspend] (lines before the receive) and [call_resume] (lines after
    it). *)

From stdpp Require Import base option gmap strings list.
From Stdlib Require Import ZArith.

(** ** Python values *)

Definition ref := nat.
Definition chan := nat.

Inductive pyobj : Type :=
| PNone
| PBool (b : bool)
| PInt (z : Z)
| PStr (s : string)
| PNotFound                 (* the sentinel [presentation.NOT_FOUND] *)
| PDenial (msg : string)    (* a [security.common.Denial] instance *)
| PObj (id : nat)           (* any other application object *)
| PComponent (r : ref).     (* an instance of [Component] *)

(** [isinstance(o, Component)] *)
Definition isinstance_Component (o : pyobj) : bool :=
  match o with PComponent _ => true | _ => false end.

(** Python truth value.  A [Denial] defines [__nonzero__] as false; plain
    objects and components define neither [__nonzero__] nor [__len__]. *)
Definition truthy (o : pyobj) : bool :=
  match o with
  | PNone => false
  | PBool b => b
  | PInt z => negb (z =? 0)%Z
  | PStr s => negb (String.eqb s "")
  | PNotFound => true
  | PDenial _ => false
  | PObj _ => true
  | PComponent _ => true
  end.

(** [a or b] *)
Definition py_or (a b : pyobj) : pyobj := if truthy a then a else b.

(** A view selector: the three kinds the render handler is registered for
    ([int], [NoneType], [str]). *)
Inductive view : Type :=
| VInt (z : Z)
| VNone
| VStr (s : string).

(** [model == 0] *)
Definition view_is_0 (m : view) : bool :=
  match m with VInt z => (z =? 0)%Z | _ => false end.

(** A url prefix is [None] or a [str]; [url_or a b] is [a or b] on them. *)
Definition url_or (a b : option string) : option string :=
  match a with
  | Some s => if String.eqb s "" then b else a
  | None => b
  end.

(** A function registered with [on_answer], taken as the function from
    the answer to the value it returns.  A listener that also acts on
    components is not described by this type: statements below that go
    through the listener branch of [answer] are about what [answer] itself
    does, handing the answer to the listener and returning its result. *)
Definition listener := pyobj -> pyobj.

(** ** The store *)

(** The attributes of a [Component] instance. *)
Record Component := mkComponent {
  o : pyobj;
  _channel : option chan;
  model : view;
  url : option string;
  _on_answer : option listener
}.

(** The local variables of a [Component.call] frame suspended in
    [self._channel.receive()]. *)
Record Frame := mkFrame {
  f_self : ref;
  previous_o : pyobj;
  previous_model : view;
  previous_url : option string;
  previous_channel : option chan;
  previous_on_answer : option listener
}.

Record State := mkState {
  heap : gmap ref Component;
  (* [Some fr]: a tasklet is blocked receiving on the channel, [None]: idle *)
  channels : gmap chan (option Frame)
}.

Definition empty_state : State := mkState ∅ ∅.

Definition set_heap (h : gmap ref Component) (s : State) : State :=
  mkState h (channels s).

Definition set_channels (cs : gmap chan (option Frame)) (s : State) : State :=
  mkState (heap s) cs.

Definition store (self : ref) (c : Component) (s : State) : State :=
  set_heap (<[self := c]> (heap s)) s.

(** ** class Component *)

Module Component.

(** [Component.__call__]: the inner object. *)
Definition __call__ (s : State) (self : ref) : option pyobj :=
  c ← heap s !! self; Some (o c).

(** [if isinstance(o, Component): o = o()] *)
Definition unwrap (s : State) (x : pyobj) : option pyobj :=
  match x with
  | PComponent r => __call__ s r
  | _ => Some x
  end.

(** [Component.__init__]: returns the new instance. *)
Definition __init__ (s : State) (x : pyobj) (model : view) (url : option string)
  : option (ref * State) :=
  x' ← unwrap s x;
  let self := fresh (dom (heap s)) in
  Some (self, store self (mkComponent x' None model url None) s).

(** [Component.becomes]: returns [self]. *)
Definition becomes (s : State) (self : ref) (x : pyobj) (m : view)
    (u : option string) : option (ref * State) :=
  x' ← unwrap s x;
  c ← heap s !! self;
  Some (self,
        store self
          (mkComponent x' (_channel c) m (url_or u (url c)) (_on_answer c)) s).

(** [Component.on_answer]: returns [self]. *)
Definition on_answer (s : State) (self : ref) (f : listener)
  : option (ref * State) :=
  c ← heap s !! self;
  Some (self,
        store self (mkComponent (o c) (_channel c) (model c) (url c) (Some f)) s).

(** [Component.call], lines 129-147: up to the point where the calling
    tasklet blocks in [self._channel.receive()].  Returns the fresh channel.
    ([sys.exc_clear()] forgets the last handled exception of the thread and
    touches none of the objects modelled here.) *)
Definition call_suspend (s : State) (self : ref) (x : pyobj) (m : view)
    (u : option string) : option (chan * State) :=
  x' ← unwrap s x;
  c ← heap s !! self;
  (* Keep my configuration *)
  let fr := mkFrame self (o c) (model c) (url c) (_channel c) (_on_answer c) in
  (* Set the new configuration *)
  let s1 := store self
              (mkComponent (o c) (_channel c) (model c) (url c) None) s in
  (* Replace me by the object and wait its answer *)
  '(_, s2) ← becomes s1 self x' m u;
  c2 ← heap s2 !! self;
  let ch := fresh (dom (channels s2)) in
  let s3 := store self
              (mkComponent (o c2) (Some ch) (model c2) (url c2) (_on_answer c2))
              s2 in
  Some (ch, set_channels (<[ch := Some fr]> (channels s3)) s3).

(** [Component.call], lines 149-156: the frame [fr] has received [r]. *)
Definition call_resume (s : State) (fr : Frame) (r : pyobj)
  : option (pyobj * State) :=
  let self := f_self fr in
  c ← heap s !! self;
  (* Restore my configuration *)
  let s1 := store self
              (mkComponent (o c) (previous_channel fr) (model c)
                 (previous_url fr) (previous_on_answer fr)) s in
  '(_, s2) ← becomes s1 self (previous_o fr) (previous_model fr) None;
  (* Return the answer *)
  Some (r, s2).

(** What a call to [answer] does. *)
Inductive answer_outcome : Type :=
| ListenerReturned (res : pyobj)        (* [return self._on_answer(r)] *)
| RaisedAnswerWithoutCall                (* [raise AnswerWithoutCall()] *)
| CallReturned (caller : ref) (v : pyobj)
    (* [send] woke the tasklet blocked in [caller.call], which returned [v] *)
| SenderBlocked (ch : chan).             (* [send] on a channel nobody reads *)

(** [channel.send(r)]: the tasklet blocked in [receive()] on the channel
    is resumed with [r] and runs the rest of its [call]. *)
Definition channel_send (s : State) (ch : chan) (r : pyobj)
  : option (answer_outcome * State) :=
  slot ← channels s !! ch;
  match slot with
  | Some fr =>
      '(v, s') ← call_resume (set_channels (<[ch := None]> (channels s)) s) fr r;
      Some (CallReturned (f_self fr) v, s')
  | None => Some (SenderBlocked ch, s)
  end.

(** [Component.answer] *)
Definition answer (s : State) (self : ref) (r : pyobj)
  : option (answer_outcome * State) :=
  c ← heap s !! self;
  match _on_answer c with
  | Some f => Some (ListenerReturned (f r), s)
  | None =>
      match _channel c with
      | None => Some (RaisedAnswerWithoutCall, s)
      | Some ch => channel_send s ch r
      end
  end.

End Component.

(** ** class Task *)

(** An exception instance, by the name of its class. *)
Definition exn := string.

(** How one invocation of [go] ends. *)
Inductive go_result : Type :=
| GoReturns (v : pyobj)
| GoRaises (e : exn).

(** How the driver [_go] ends, or does not. *)
Inductive driver_outcome : Type :=
| StillLooping                               (* inside [while True] *)
| Propagated (e : exn)                       (* an exception left [go] *)
| Answered (a : Component.answer_outcome).   (* [comp.answer(...)] was run *)

Module Task.

Section Driver.

(** The [go] method of the concrete task: arbitrary code acting on the
    store, which returns a value or raises. *)
Variable go : ref -> State -> go_result * State.

(** [while True: self.go(comp)], unfolded [fuel] times; the last
    component counts the invocations of [go]. *)
Fixpoint forever (fuel : nat) (comp : ref) (s : State) (calls : nat)
  : driver_outcome * State * nat :=
  match fuel with
  | O => (StillLooping, s, calls)
  | S fuel' =>
      match go comp s with
      | (GoReturns _, s') => forever fuel' comp s' (S calls)
      | (GoRaises e, s') => (Propagated e, s', S calls)
      end
  end.

(** [Task._go] *)
Definition _go (fuel : nat) (comp : ref) (s : State)
  : option (driver_outcome * State * nat) :=
  c ← heap s !! comp;
  match _channel c with
  | None => Some (forever fuel comp s 0)
  | Some _ =>
      match go comp s with
      | (GoReturns v, s') =>
          '(a, s'') ← Component.answer s' comp v;
          Some (Answered a, s'', 1)
      | (GoRaises e, s') => Some (Propagated e, s', 1)
      end
  end.

End Driver.

(** [Task.go]: the abstract method. *)
Definition go (comp : ref) (s : State) : go_result * State :=
  (GoRaises "BaseException", s).

End Task.

(** ** Handlers registered on the generic functions of [nagare.presentation] *)

Module presentation.

Section Handlers.

Context {Renderer Output : Type}.

(** The calls made to the collaborators, in order. *)
Inductive event : Type :=
| ENew (parent child : Renderer)
| EStartRendering (r : Renderer) (comp : ref) (m : view)
| ERender (x : pyobj) (r : Renderer) (comp : ref) (m : view) (out : Output)
| EEndRendering (r : Renderer) (out res : Output)
| EInit (x : pyobj) (url : string) (comp : ref) (http_method : string)
    (request : pyobj) (res : pyobj).

(** The renderer contract. *)
Variable new : Renderer -> State -> Renderer * State.
Variable start_rendering : Renderer -> ref -> view -> State -> State.
Variable end_rendering : Renderer -> Output -> State -> Output * State.

(** The generic functions [presentation.render] and [presentation.init]
    applied to something that is not a component. *)
Variable presentation_render :
  pyobj -> Renderer -> ref -> view -> State -> Output * State.
Variable presentation_init :
  pyobj -> string -> ref -> string -> pyobj -> State -> pyobj * State.

(** Code acting on the store and calling collaborators; [None] is a
    dangling reference. *)
Definition M (A : Type) : Type :=
  State -> list event -> option (A * State * list event).

#[local] Instance M_ret : MRet M := fun A x s tr => Some (x, s, tr).
#[local] Instance M_bind : MBind M := fun A B k m s tr =>
  match m s tr with
  | Some (x, s', tr') => k x s' tr'
  | None => None
  end.

Definition collaborator {A : Type} (f : State -> A * State) (ev : A -> event)
  : M A :=
  fun s tr => let '(x, s') := f s in Some (x, s', tr ++ [ev x]).

Definition attributes (self : ref) : M Component :=
  fun s tr => c ← heap s !! self; Some (c, s, tr).

(** [render], the handler for [Component] and an [int], [None] or [str]
    view. *)
Definition render (self : ref) (renderer : Renderer) (comp : ref) (m : view)
  : M Output :=
  renderer' ← collaborator (new renderer) (ENew renderer);
  collaborator (fun s => (tt, start_rendering renderer' self m s))
    (fun _ => EStartRendering renderer' self m);;
  c ← attributes self;
  let m' := if view_is_0 m then model c else m in
  output ← collaborator (presentation_render (o c) renderer' self m')
             (ERender (o c) renderer' self m');
  collaborator (end_rendering renderer' output)
    (EEndRendering renderer' output).

(** [init_for], the handler for [Component]. *)
Definition init_for (self : ref) (url : string) (comp : ref)
    (http_method : string) (request : pyobj) : M pyobj :=
  c ← attributes self;
  collaborator (presentation_init (o c) url self http_method request)
    (EInit (o c) url self http_method request);;
  mret PNone.

(** [Component.render]: the generic function applied to the component
    itself selects [render]. *)
Definition Component_render (self : ref) (renderer : Renderer) (m : view)
  : M Output :=
  render self renderer self m.

(** [Component.init]: the generic function applied to the component
    itself selects [init_for]. *)
Definition Component_init (self : ref) (url : string) (http_method : string)
    (request : pyobj) : M pyobj :=
  init_for self url self http_method request.

End Handlers.

End presentation.

(** ** nagare.security *)

Module security.

(** A user object, as created by the security manager. *)
Record User := mkUser {
  uid : nat;
  expired : bool
}.

(** A security manager: the generic method [has_permission] and the
    [denies] hook, which raises ([Some e]) or returns ([None]). *)
Record Manager := mkManager {
  has_permission : option User -> pyobj -> pyobj -> pyobj;
  denies : pyobj -> option exn
}.

(** [local.request] *)
Record Request := mkRequest {
  user : option User;
  security_manager : Manager
}.

(** The calls made to the security manager, in order. *)
Inductive event : Type :=
| EHasPermission (u : option User) (perm subject : pyobj)
| EDenies (credential : pyobj).

(** Code reading and writing [local.request], calling the manager, and
    returning ([inl]) or raising ([inr]). *)
Definition M (A : Type) : Type :=
  Request -> list event -> (A + exn) * Request * list event.

#[local] Instance M_ret : MRet M := fun A x rq tr => (inl x, rq, tr).
#[local] Instance M_bind : MBind M := fun A B k m rq tr =>
  match m rq tr with
  | (inl x, rq', tr') => k x rq' tr'
  | (inr e, rq', tr') => (inr e, rq', tr')
  end.

(** A Python callable taking positional arguments. *)
Definition Action := list pyobj -> M pyobj.

Definition _get_user : M (option User) :=
  fun rq tr => (inl (user rq), rq, tr).

Definition get_user : M (option User) :=
  u ← _get_user;
  mret (match u with
        | Some usr => if negb (expired usr) then Some usr else None
        | None => None
        end).

Definition set_user (u : option User) : M unit :=
  fun rq tr => (inl tt, mkRequest u (security_manager rq), tr).

Definition get_manager : M Manager :=
  fun rq tr => (inl (security_manager rq), rq, tr).

Definition set_manager (manager : Manager) : M unit :=
  fun rq tr => (inl tt, mkRequest (user rq) manager, tr).

(** [manager.has_permission(u, perm, subject)] *)
Definition call_has_permission (manager : Manager) (u : option User)
    (perm subject : pyobj) : M pyobj :=
  fun rq tr =>
    (inl (has_permission manager u perm subject), rq,
     tr ++ [EHasPermission u perm subject]).

(** [manager.denies(credential)] *)
Definition call_denies (manager : Manager) (credential : pyobj) : M unit :=
  fun rq tr =>
    (match denies manager credential with
     | Some e => inr e
     | None => inl tt
     end, rq, tr ++ [EDenies credential]).

Definition has_permissions (perm subject : pyobj) : M pyobj :=
  manager ← get_manager;
  u ← get_user;
  call_has_permission manager u perm subject.

(** [credential is False] *)
Definition is_False (credential : pyobj) : bool :=
  match credential with PBool false => true | _ => false end.

Definition check_permissions (perm subject : pyobj) : M pyobj :=
  credential ← has_permissions perm subject;
  if negb (truthy credential) then
    let credential := if is_False credential then PStr "" else credential in
    manager ← get_manager;
    call_denies manager credential;;
    mret credential
  else mret credential.

Definition call_with_permissions (self : pyobj) (__action : Action)
    (__perm __subject : pyobj) (args : list pyobj) : M pyobj :=
  check_permissions __perm (py_or __subject self);;
  if truthy self then __action (self :: args) else __action args.

(** [perm is not None] *)
Definition is_not_None (x : pyobj) : bool :=
  match x with PNone => false | _ => true end.

(** [wrapper]; [partial.Partial(f, a, b, c, d)] is the callable that
    passes [a, b, c, d] before its own arguments. *)
Definition wrapper (action : Action) (perm subject : pyobj) : Action :=
  if is_not_None perm
  then fun args => call_with_permissions PNone action perm subject args
  else action.

End security.

(** ** nagare.admin.util *)


Module util.

#[local] Set Warnings "-register-all".

(** A value of a validated [ConfigObj]: a boolean, a string, or a
    sub-section, which is a dictionary whose [items()] come in a fixed
    order. *)
Inductive cval : Type :=
| CBool (b : bool)
| CStr (s : string)
| CSection (items : list (string * cval)).

Abbreviation section := (list (string * cval)).

(** Python truth value of a configuration value. *)
Definition truthy (v : cval) : bool :=
  match v with
  | CBool b => b
  | CStr s => negb (String.eqb s "")
  | CSection items => match items with [] => false | _ => true end
  end.


(** The dictionary a list of items builds: a later item replaces an earlier
    one with the same key. *)
Definition as_dict (items : section) : gmap string cval :=
  foldl (fun d kv => <[kv.1 := kv.2]> d) ∅ items.

(** [conf.get(k)] *)
Definition get (conf : section) (k : string) : option cval :=
  as_dict conf !! k.

(** A value or an exception. *)
Inductive result (A : Type) : Type :=
| Ok (a : A)
| Raise (e : exn).
Arguments Ok {A} a.
Arguments Raise {A} e.

Definition bind {A B : Type} (r : result A) (k : A -> result B) : result B :=
  match r with
  | Ok a => k a
  | Raise e => Raise e
  end.

(** [conf[k]] *)
Definition getitem (conf : section) (k : string) : result cval :=
  match get conf k with
  | Some v => Ok v
  | None => Raise "KeyError"
  end.



(** The names [get_database] keeps out of the engine settings. *)
Definition reserved : list string :=
  ["uri"; "activated"; "metadata"; "debug"; "populate"].

(** The tuple [get_database] returns. *)
Record database := mkDatabase {
  db_metadata : pyobj;
  db_uri : cval;
  db_debug : cval;
  db_engine_conf : gmap string cval
}.

Section Databases.

(** [reference.load_object(metadata)[0]]: the object a reference names,
    or the exception raised when loading it. *)
Variable load_object : cval -> result pyobj.

(** [get_database] *)
Definition get_database (conf : section) (debug : cval)
  : result (option database) :=
  let metadata := get conf "metadata" in
  bind (getitem conf "activated") (fun activated =>
  if negb (truthy activated)
     || negb (match metadata with Some md => truthy md | None => false end)
  then Ok None
  else
    bind (match metadata with
          | Some md => load_object md
          | None => Raise "TypeError"
          end) (fun metadata =>
    let engine_conf :=
      as_dict (filter (fun kv => kv.1 ∉ reserved) conf) in
    bind (getitem conf "uri") (fun uri =>
    Ok (Some (mkDatabase metadata uri debug engine_conf))))).




(** The calls made to the [wsgi] module and to the application. *)
Inductive event : Type :=
| ECreate (app : pyobj)
| ESetConfig (cfgfile : string) (aconf : section) (error : pyobj)
| ESetStaticPath (path : string)
| ESetStaticUrl (url : string)
| ESetDataPath (path : string)
| ESetPublisher (publisher : pyobj)
| ESetSessionsManager (sessions_manager : pyobj)
| ESetDatabases (databases : list database)
| ESetProject (project_name : string).



End Databases.

End util.

(** ** Programs over the component interface *)

(** One use of the public interface of [Component]; [OpCall] is a call up
    to its suspension, [OpAnswer] an answer together with the rest of the
    call it wakes up. *)
Inductive op : Type :=
| OpNew (x : pyobj) (m : view) (u : option string)
| OpBecomes (c : ref) (x : pyobj) (m : view) (u : option string)
| OpOnAnswer (c : ref) (f : listener)
| OpCall (c : ref) (x : pyobj) (m : view) (u : option string)
| OpAnswer (c : ref) (v : pyobj).

Definition exec (a : op) (s : State) : option State :=
  match a with
  | OpNew x m u => snd <$> Component.__init__ s x m u
  | OpBecomes c x m u => snd <$> Component.becomes s c x m u
  | OpOnAnswer c f => snd <$> Component.on_answer s c f
  | OpCall c x m u => snd <$> Component.call_suspend s c x m u
  | OpAnswer c v => snd <$> Component.answer s c v
  end.

Fixpoint run (ops : list op) (s : State) : option State :=
  match ops with
  | [] => Some s
  | a :: ops' => s' ← exec a s; run ops' s'
  end.

(** No component of the store has a component as its payload. *)
Definition no_nested (s : State) : Prop :=
  ∀ r c, heap s !! r = Some c → isinstance_Component (o c) = false.

(** The attributes of [c] after [c.becomes(x, m, u)], when [x'] is [x]
    unwrapped. *)
Definition after_becomes (c : Component) (x' : pyobj) (m : view)
    (u : option string) : Component :=
  mkComponent x' (_channel c) m (url_or u (url c)) (_on_answer c).

(** The frame [self.call(...)] keeps while it is suspended. *)
Definition frame_of (self : ref) (c : Component) : Frame :=
  mkFrame self (o c) (model c) (url c) (_channel c) (_on_answer c).

(** The attributes a resumed frame gives back to its component. *)
Definition restored (fr : Frame) : Component :=
  mkComponent (previous_o fr) (previous_channel fr) (previous_model fr)
    (previous_url fr) (previous_on_answer fr).

(** What the store may go through while the caller of [c.call] is suspended
    on [ch]: anything that leaves it blocked on [ch], its locals being its
    own, and [c] an object. *)
Definition still_waiting (ch : chan) (c : ref) (s1 s2 : State) : Prop :=
  channels s2 !! ch = channels s1 !! ch ∧ is_Some (heap s2 !! c).

(** ** Suspended callers as stacks *)

(** The component an operation is invoked on. *)
Definition target (a : op) : option ref :=
  match a with
  | OpNew _ _ _ => None
  | OpBecomes c _ _ _ | OpOnAnswer c _ | OpCall c _ _ _ | OpAnswer c _ => Some c
  end.

(** The channel of a component leads to a caller of that component blocked
    on it, whose saved channel leads to the next one, and so on; every
    blocked caller belongs to a live component and saved a payload that is
    not a component; no channel is pointed at twice. *)
Definition linked (s : State) : Prop :=
  (∀ c comp ch,
     heap s !! c = Some comp → _channel comp = Some ch →
     ∃ fr, channels s !! ch = Some (Some fr) ∧ f_self fr = c) ∧
  (∀ ch fr ch',
     channels s !! ch = Some (Some fr) → previous_channel fr = Some ch' →
     ∃ fr', channels s !! ch' = Some (Some fr') ∧ f_self fr' = f_self fr) ∧
  (∀ ch fr,
     channels s !! ch = Some (Some fr) →
     is_Some (heap s !! f_self fr) ∧
     isinstance_Component (previous_o fr) = false) ∧
  (∀ ch1 fr1 ch2 fr2 ch',
     channels s !! ch1 = Some (Some fr1) → channels s !! ch2 = Some (Some fr2) →
     previous_channel fr1 = Some ch' → previous_channel fr2 = Some ch' →
     ch1 = ch2) ∧
  (∀ c comp ch0 fr ch',
     heap s !! c = Some comp → _channel comp = Some ch' →
     channels s !! ch0 = Some (Some fr) → previous_channel fr ≠ Some ch').

(** ** Scenarios *)

(** Two application objects. *)
Definition FormA : pyobj := PObj 1.
Definition FormB : pyobj := PObj 2.

(** A listener. *)
Definition heard : listener := fun v => PStr "heard".

(** [c = Component(FormA, url='a')], at reference [0]. *)
Definition scenario_wrapped : State :=
  default empty_state
    (snd <$> Component.__init__ empty_state FormA (VInt 0) (Some "a")).

(** ... then [c.on_answer(heard)] ... *)
Definition scenario_listening : State :=
  default empty_state (snd <$> Component.on_answer scenario_wrapped 0 heard).

(** ... then [c.call(FormB, 1)], suspended on channel [0] ... *)
Definition scenario_called : State :=
  default empty_state
    (snd <$> Component.call_suspend scenario_listening 0 FormB (VInt 1) None).

(** ... then the callee replaces [c], installs a listener of its own and
    wraps [c] again. *)
Definition meddling : list op :=
  [OpBecomes 0 (PObj 3) (VStr "edit") (Some "x");
   OpOnAnswer 0 (fun v => v);
   OpNew (PComponent 0) VNone None].

Definition scenario_meddled : State :=
  default empty_state (run meddling scenario_called).

(** [go] invoked [n] times on [comp], one invocation after the other: the
    store the last one leaves when all of them return, [None] when one of
    them raises. *)
Fixpoint go_times (go : ref -> State -> go_result * State) (n : nat)
    (comp : ref) (s : State) : option State :=
  match n with
  | O => Some s
  | S n' =>
      match go comp s with
      | (GoReturns _, s') => go_times go n' comp s'
      | (GoRaises _, _) => None
      end
  end.

(** A task whose [go] returns [7] and leaves the store alone. *)
Definition sample_go (comp : ref) (s : State) : go_result * State :=
  (GoReturns (PInt 7), s).

(** A renderer contract over numbered scopes and string output, and a
    payload that renders as its view name and consumes no url. *)
Definition sample_new (r : nat) (s : State) : nat * State := (S r, s).
Definition sample_start_rendering (r : nat) (comp : ref) (m : view) (s : State)
  : State := s.
Definition sample_end_rendering (r : nat) (out : string) (s : State)
  : string * State := (String.append "<div>" out, s).
Definition sample_presentation_render (x : pyobj) (r : nat) (comp : ref)
    (m : view) (s : State) : string * State :=
  (match m with VStr name => name | _ => "default" end, s).
Definition sample_presentation_init (x : pyobj) (url : string) (comp : ref)
    (http_method : string) (request : pyobj) (s : State) : pyobj * State :=
  (PNotFound, s).

(** A security manager that grants everything to a visible user, denies with
    [False] otherwise, and raises on denial; a live and an expired user; an
    action that returns its first argument. *)
Definition sample_manager : security.Manager :=
  security.mkManager
    (fun u perm subject => PBool (bool_decide (is_Some u)))
    (fun credential => Some "HTTPForbidden").
Definition alice : security.User := security.mkUser 1 false.
Definition bob : security.User := security.mkUser 2 true.
Definition sample_action : security.Action :=
  fun args rq tr => (inl (default PNone (head args)), rq, tr).

(** A program: two components, a call on each, a nested call on the
    first, and its answer. *)
Definition two_callers : list op :=
  [OpNew FormA (VInt 0) None;
   OpNew FormB VNone (Some "b");
   OpCall 0 (PObj 3) (VStr "edit") None;
   OpCall 1 (PComponent 0) (VInt 0) None;
   OpCall 0 (PObj 4) (VInt 0) (Some "x");
   OpAnswer 0 (PStr "inner")].

Definition scenario_two_callers : State :=
  default empty_state (run two_callers empty_state).

(** A task that counts in the payload of its component: [go] adds one
    below [2] and raises at [2]. *)
Definition counting_go (comp : ref) (s : State) : go_result * State :=
  match heap s !! comp with
  | Some c =>
      match o c with
      | PInt z =>
          if (z <? 2)%Z
          then (GoReturns PNone,
                store comp
                  (mkComponent (PInt (z + 1)) (_channel c) (model c) (url c)
                     (_on_answer c)) s)
          else (GoRaises "StopIteration", s)
      | _ => (GoRaises "TypeError", s)
      end
  | None => (GoRaises "ReferenceError", s)
  end.

Definition counter (z : Z) : State :=
  store 0 (mkComponent (PInt z) None (VInt 0) None None) empty_state.



(** A [database] section with an engine option and two sub-sections, one
    of them not activated; references load as their own text. *)
Definition sample_archive : util.section :=
  [("activated", util.CBool true); ("uri", util.CStr "sqlite:///archive.db");
   ("metadata", util.CStr "app.models:archive"); ("debug", util.CBool true);
   ("populate", util.CStr "")].




Definition sample_load_object (md : util.cval) : util.result pyobj :=
  match md with
  | util.CStr s => util.Ok (PStr s)
  | _ => util.Raise "TypeError"
  end.

(** * Properties *)

(** ** The store *)

Section store_facts.

Implicit Types (s : State) (c : Component) (r self : ref).

Lemma heap_store_eq s self c : heap (store self c s) !! self = Some c.
Proof. apply lookup_insert_eq. Qed.

Lemma heap_store_ne s self r c :
  self ≠ r → heap (store self c s) !! r = heap s !! r.
Proof. intros Hne. by apply lookup_insert_ne. Qed.

Lemma channels_store s self c : channels (store self c s) = channels s.
Proof. done. Qed.

Lemma store_store s self c c' :
  store self c' (store self c s) = store self c' s.
Proof. unfold store, set_heap; simpl. f_equal. apply insert_insert_eq. Qed.

Lemma no_nested_store s self c :
  no_nested s → isinstance_Component (o c) = false →
  no_nested (store self c s).
Proof.
  intros Hs Hc r c' Hr. destruct (decide (self = r)) as [->|Hne].
  - rewrite heap_store_eq in Hr. by simplify_eq.
  - rewrite heap_store_ne in Hr by done. eauto.
Qed.

Lemma no_nested_set_channels s cs : no_nested s → no_nested (set_channels cs s).
Proof. done. Qed.

Lemma no_nested_empty : no_nested empty_state.
Proof. intros r c Hr. simpl in Hr. by rewrite lookup_empty in Hr. Qed.

End store_facts.

(** ** Unwrapping and [becomes] *)

Section becomes_facts.

Implicit Types (s : State) (c : Component) (r self : ref) (x : pyobj).

Lemma unwrap_other s x :
  isinstance_Component x = false → Component.unwrap s x = Some x.
Proof. by destruct x. Qed.

Lemma unwrap_component s r c :
  heap s !! r = Some c → Component.unwrap s (PComponent r) = Some (o c).
Proof. intros Hr. simpl. unfold Component.__call__. by rewrite Hr. Qed.

Lemma unwrap_no_nested s x x' :
  no_nested s → Component.unwrap s x = Some x' →
  isinstance_Component x = false ∨ isinstance_Component x' = false.
Proof.
  intros Hs Hx. destruct x; simpl in *; auto.
  unfold Component.__call__ in Hx.
  destruct (heap s !! r) as [c|] eqn:Hr; simplify_eq/=. right. eauto.
Qed.

Lemma becomes_inv s self x m u r s' :
  Component.becomes s self x m u = Some (r, s') →
  ∃ x' c, Component.unwrap s x = Some x' ∧ heap s !! self = Some c ∧
          r = self ∧ s' = store self (after_becomes c x' m u) s.
Proof.
  unfold Component.becomes. intros H.
  destruct (Component.unwrap s x) as [x'|] eqn:Hx; simplify_eq/=.
  destruct (heap s !! self) as [c|] eqn:Hc; simplify_eq/=.
  by exists x', c.
Qed.

Lemma becomes_intro s self x x' m u c :
  Component.unwrap s x = Some x' → heap s !! self = Some c →
  Component.becomes s self x m u
  = Some (self, store self (after_becomes c x' m u) s).
Proof. intros Hx Hc. unfold Component.becomes. rewrite Hx. simpl. by rewrite Hc. Qed.

End becomes_facts.

(** ** Payloads never nest *)

Section no_nested_facts.

Implicit Types (s : State) (c : Component) (r self : ref) (x : pyobj).

Lemma unwrap_not_component s x x' :
  no_nested s → Component.unwrap s x = Some x' →
  isinstance_Component x' = false.
Proof.
  intros Hs Hx. destruct (unwrap_no_nested s x x' Hs Hx) as [Hn|]; [|done].
  rewrite unwrap_other in Hx by done. by simplify_eq.
Qed.

Lemma init_no_nested s x m u r s' :
  no_nested s → Component.__init__ s x m u = Some (r, s') → no_nested s'.
Proof.
  unfold Component.__init__. intros Hs H.
  destruct (Component.unwrap s x) as [x'|] eqn:Hx; simplify_eq/=.
  apply no_nested_store; [done|]. simpl. eauto using unwrap_not_component.
Qed.

Lemma becomes_no_nested s self x m u r s' :
  no_nested s → Component.becomes s self x m u = Some (r, s') → no_nested s'.
Proof.
  intros Hs (x' & c & Hx & Hc & -> & ->)%becomes_inv.
  apply no_nested_store; [done|]. simpl. eauto using unwrap_not_component.
Qed.

Lemma on_answer_no_nested s self f r s' :
  no_nested s → Component.on_answer s self f = Some (r, s') → no_nested s'.
Proof.
  unfold Component.on_answer. intros Hs H.
  destruct (heap s !! self) as [c|] eqn:Hc; simplify_eq/=.
  apply no_nested_store; [done|]. simpl. eauto.
Qed.

Lemma call_suspend_no_nested s self x m u ch s' :
  no_nested s → Component.call_suspend s self x m u = Some (ch, s') →
  no_nested s'.
Proof.
  unfold Component.call_suspend. intros Hs H.
  destruct (Component.unwrap s x) as [x'|] eqn:Hx; simplify_eq/=.
  destruct (heap s !! self) as [c|] eqn:Hc; simplify_eq/=.
  match type of H with
  | context [Component.becomes ?s1 self x' m u] =>
      destruct (Component.becomes s1 self x' m u) as [[r s2]|] eqn:Hb;
      simplify_eq/=
  end.
  assert (no_nested s2) as Hs2.
  { eapply becomes_no_nested; [|exact Hb].
    apply no_nested_store; [done|]. simpl. eauto. }
  destruct (heap s2 !! self) as [c2|] eqn:Hc2; simplify_eq/=.
  apply no_nested_set_channels, no_nested_store; [done|]. simpl. eauto.
Qed.

Lemma call_resume_no_nested s fr v v' s' :
  no_nested s → Component.call_resume s fr v = Some (v', s') → no_nested s'.
Proof.
  unfold Component.call_resume. intros Hs H.
  destruct (heap s !! f_self fr) as [c|] eqn:Hc; simplify_eq/=.
  match type of H with
  | context [Component.becomes ?s1 ?a ?b ?d ?e] =>
      destruct (Component.becomes s1 a b d e) as [[r s2]|] eqn:Hb;
      simplify_eq/=
  end.
  eapply becomes_no_nested; [|exact Hb].
  apply no_nested_store; [done|]. simpl. eauto.
Qed.

Lemma channel_send_no_nested s ch v a s' :
  no_nested s → Component.channel_send s ch v = Some (a, s') → no_nested s'.
Proof.
  unfold Component.channel_send. intros Hs H.
  destruct (channels s !! ch) as [[fr|]|] eqn:Hch; simplify_eq/=; [|done].
  match type of H with
  | context [Component.call_resume ?s1 fr v] =>
      destruct (Component.call_resume s1 fr v) as [[v' s2]|] eqn:Hr;
      simplify_eq/=
  end.
  eapply call_resume_no_nested; [|exact Hr]. by apply no_nested_set_channels.
Qed.

Lemma answer_no_nested s self v a s' :
  no_nested s → Component.answer s self v = Some (a, s') → no_nested s'.
Proof.
  unfold Component.answer. intros Hs H.
  destruct (heap s !! self) as [c|] eqn:Hc; simplify_eq/=.
  destruct (_on_answer c); simplify_eq/=; [done|].
  destruct (_channel c); simplify_eq/=; [|done].
  eauto using channel_send_no_nested.
Qed.

Lemma exec_no_nested a s s' : no_nested s → exec a s = Some s' → no_nested s'.
Proof.
  intros Hs H. destruct a; simpl in H;
    apply fmap_Some in H as ([r s1] & H & ->); simpl.
  - eauto using init_no_nested.
  - eauto using becomes_no_nested.
  - eauto using on_answer_no_nested.
  - eauto using call_suspend_no_nested.
  - eauto using answer_no_nested.
Qed.

Lemma run_no_nested ops : ∀ s s',
  no_nested s → run ops s = Some s' → no_nested s'.
Proof.
  induction ops as [|a ops IH]; intros s s' Hs H; simpl in H.
  - by simplify_eq.
  - destruct (exec a s) as [s1|] eqn:Ha; simplify_eq/=.
    eauto using exec_no_nested.
Qed.

End no_nested_facts.

(** ** The two halves of [call] *)

Section call_facts.

Implicit Types (s : State) (c : Component) (r self : ref) (x : pyobj).

Lemma restored_frame_of self c : restored (frame_of self c) = c.
Proof. by destruct c. Qed.

Lemma call_suspend_inv s self x m u ch s' :
  Component.call_suspend s self x m u = Some (ch, s') →
  ∃ x' x'' c,
    Component.unwrap s x = Some x' ∧ heap s !! self = Some c ∧
    Component.unwrap
      (store self (mkComponent (o c) (_channel c) (model c) (url c) None) s) x'
    = Some x'' ∧
    ch = fresh (dom (channels s)) ∧
    s' = set_channels (<[ch := Some (frame_of self c)]> (channels s))
           (store self (mkComponent x'' (Some ch) m (url_or u (url c)) None) s).
Proof.
  unfold Component.call_suspend. intros H.
  destruct (Component.unwrap s x) as [x'|] eqn:Hx; simplify_eq/=.
  destruct (heap s !! self) as [c|] eqn:Hc; simplify_eq/=.
  match type of H with
  | context [Component.becomes ?s1 self x' m u] =>
      destruct (Component.becomes s1 self x' m u) as [[r s2]|] eqn:Hb;
      simplify_eq/=
  end.
  apply becomes_inv in Hb as (x'' & c1 & Hx'' & Hc1 & -> & ->).
  rewrite heap_store_eq in Hc1. simplify_eq/=.
  rewrite lookup_insert_eq in H. simplify_eq/=.
  exists x', x'', c. repeat split; try done.
  unfold store, set_heap, set_channels; simpl.
  by rewrite !insert_insert_eq.
Qed.

Lemma call_suspend_intro s self x x' m u c :
  Component.unwrap s x = Some x' → isinstance_Component x' = false →
  heap s !! self = Some c →
  Component.call_suspend s self x m u
  = Some (fresh (dom (channels s)),
          set_channels
            (<[fresh (dom (channels s)) := Some (frame_of self c)]> (channels s))
            (store self
               (mkComponent x' (Some (fresh (dom (channels s)))) m
                  (url_or u (url c)) None) s)).
Proof.
  intros Hx Hx' Hc. unfold Component.call_suspend.
  rewrite Hx. simpl. rewrite Hc. simpl.
  erewrite becomes_intro;
    [|by apply unwrap_other|by apply heap_store_eq].
  simpl. rewrite lookup_insert_eq. simpl.
  unfold store, set_heap, set_channels; simpl.
  by rewrite !insert_insert_eq.
Qed.

Lemma fresh_channel_unused s : channels s !! fresh (dom (channels s)) = None.
Proof. apply not_elem_of_dom, is_fresh. Qed.

Lemma call_resume_restores s fr v c :
  heap s !! f_self fr = Some c → isinstance_Component (previous_o fr) = false →
  Component.call_resume s fr v = Some (v, store (f_self fr) (restored fr) s).
Proof.
  intros Hc Hn. unfold Component.call_resume. rewrite Hc. simpl.
  erewrite becomes_intro;
    [|by apply unwrap_other|by apply heap_store_eq].
  simpl. by rewrite store_store.
Qed.

Lemma channel_send_blocked s ch fr v c :
  channels s !! ch = Some (Some fr) →
  heap s !! f_self fr = Some c → isinstance_Component (previous_o fr) = false →
  Component.channel_send s ch v
  = Some (Component.CallReturned (f_self fr) v,
          store (f_self fr) (restored fr)
            (set_channels (<[ch := None]> (channels s)) s)).
Proof.
  intros Hch Hc Hn. unfold Component.channel_send. rewrite Hch. simpl.
  by erewrite call_resume_restores.
Qed.

End call_facts.

(** ** Programs and suspended callers *)

Section program_facts.

Implicit Types (s : State) (c : Component) (r self : ref) (x : pyobj).

Lemma call_resume_inv s fr v v' s' :
  Component.call_resume s fr v = Some (v', s') →
  v' = v ∧ ∃ c', s' = store (f_self fr) c' s.
Proof.
  unfold Component.call_resume. intros H.
  destruct (heap s !! f_self fr) as [c|] eqn:Hc; simplify_eq/=.
  match type of H with
  | context [Component.becomes ?s1 ?a ?b ?d ?e] =>
      destruct (Component.becomes s1 a b d e) as [[r s2]|] eqn:Hb;
      simplify_eq/=
  end.
  apply becomes_inv in Hb as (x' & c1 & _ & _ & -> & ->).
  split; [done|]. eexists. apply store_store.
Qed.

Lemma answer_inv s self v a s' :
  Component.answer s self v = Some (a, s') →
  s' = s ∨
  ∃ ch fr c',
    channels s !! ch = Some (Some fr) ∧ a = Component.CallReturned (f_self fr) v ∧
    s' = store (f_self fr) c' (set_channels (<[ch := None]> (channels s)) s).
Proof.
  unfold Component.answer. intros H.
  destruct (heap s !! self) as [c|] eqn:Hc; simplify_eq/=.
  destruct (_on_answer c); simplify_eq/=; [by left|].
  destruct (_channel c) as [ch|]; simplify_eq/=; [|by left].
  unfold Component.channel_send in H.
  destruct (channels s !! ch) as [[fr|]|] eqn:Hch; simplify_eq/=; [|by left].
  match type of H with
  | context [Component.call_resume ?s1 fr v] =>
      destruct (Component.call_resume s1 fr v) as [[v' s2]|] eqn:Hr;
      simplify_eq/=
  end.
  apply call_resume_inv in Hr as (-> & c' & ->).
  right. by exists ch, fr, c'.
Qed.

(** A step of a program leaves every channel as it is or idle. *)
Lemma exec_channels a s s' ch (slot : option Frame) :
  exec a s = Some s' → channels s !! ch = Some slot →
  channels s' !! ch = Some slot ∨ channels s' !! ch = Some None.
Proof.
  intros H Hch. destruct a; simpl in H;
    apply fmap_Some in H as ([r s1] & H & ->); simpl.
  - unfold Component.__init__ in H.
    destruct (Component.unwrap s x); simplify_eq/=. by left.
  - apply becomes_inv in H as (? & ? & _ & _ & _ & ->). by left.
  - unfold Component.on_answer in H.
    destruct (heap s !! c); simplify_eq/=. by left.
  - apply call_suspend_inv in H as (? & ? & ? & _ & _ & _ & -> & ->).
    left. simpl. rewrite lookup_insert_ne; [done|].
    intros Heq. pose proof (fresh_channel_unused s) as Hf.
    rewrite Heq in Hf. congruence.
  - apply answer_inv in H as [->|(ch0 & fr & c' & Hch0 & _ & ->)]; [by left|].
    simpl. destruct (decide (ch0 = ch)) as [->|Hne].
    + right. apply lookup_insert_eq.
    + left. by rewrite lookup_insert_ne.
Qed.

(** A step of a program deletes no component. *)
Lemma exec_alive a s s' r :
  exec a s = Some s' → is_Some (heap s !! r) → is_Some (heap s' !! r).
Proof.
  assert (∀ self c0 s0, is_Some (heap s0 !! r) →
                        is_Some (heap (store self c0 s0) !! r)) as Hstore.
  { intros self c0 s0 Hr. simpl. rewrite lookup_insert_is_Some'. auto. }
  intros H Hr. destruct a; simpl in H;
    apply fmap_Some in H as ([r1 s1] & H & ->); simpl.
  - unfold Component.__init__ in H.
    destruct (Component.unwrap s x); simplify_eq/=. by apply Hstore.
  - apply becomes_inv in H as (? & ? & _ & _ & _ & ->). by apply Hstore.
  - unfold Component.on_answer in H.
    destruct (heap s !! c); simplify_eq/=. by apply Hstore.
  - apply call_suspend_inv in H as (? & ? & ? & _ & _ & _ & -> & ->).
    by apply Hstore.
  - apply answer_inv in H as [->|(ch0 & fr & c' & _ & _ & ->)]; [done|].
    by apply Hstore.
Qed.

(** While no answer has reached the channel, the caller of a pending call
    is still waiting, whatever program has run since. *)
Lemma run_still_waiting ops : ∀ s1 s2 ch fr self,
  run ops s1 = Some s2 →
  channels s1 !! ch = Some (Some fr) → is_Some (heap s1 !! self) →
  channels s2 !! ch ≠ Some None →
  still_waiting ch self s1 s2.
Proof.
  induction ops as [|a ops IH]; intros s1 s2 ch fr self H Hch Hc Hpending;
    simpl in H.
  - by simplify_eq.
  - destruct (exec a s1) as [s|] eqn:Ha; simplify_eq/=.
    destruct (exec_channels a s1 s ch _ Ha Hch) as [Hs|Hs].
    + destruct (IH s s2 ch fr self H Hs) as [Hch2 Hc2];
        [by eapply exec_alive|done|].
      split; [congruence|done].
    + exfalso. clear IH Hch Hc Ha.
      revert s H Hs. induction ops as [|b ops IH']; intros s H Hs; simpl in H.
      * by simplify_eq.
      * destruct (exec b s) as [s'|] eqn:Hb; simplify_eq/=.
        destruct (exec_channels b s s' ch _ Hb Hs); eauto.
Qed.

End program_facts.

(** ** Call and answer *)

(** C1 — Identity preservation across [call].  Let [c] be a component
    with attributes [c1] (its payload not a component, as for every
    component built through the interface).  Suspend [c.call(p2, m2, u2)] on
    its fresh channel [ch]; let the store then go through anything that
    leaves the caller waiting on [ch] ([still_waiting]: any program over the
    interface does, until an answer reaches [ch]); deliver [v] on [ch].
    Then the call returns exactly [v] and the attributes of [c] (payload,
    view, url, channel, listener) are [c1] again.  When [c] has no listener
    and still points to [ch], [c.answer(v)] is that delivery. *)
Theorem call_identity_preservation (s s1 s2 : State) (c : ref)
    (c1 : Component) (p2 : pyobj) (m2 : view) (u2 : option string)
    (ch : chan) (v : pyobj) :
  heap s !! c = Some c1 →
  isinstance_Component (o c1) = false →
  Component.call_suspend s c p2 m2 u2 = Some (ch, s1) →
  still_waiting ch c s1 s2 →
  ∃ s3,
    Component.channel_send s2 ch v = Some (Component.CallReturned c v, s3) ∧
    heap s3 !! c = Some c1 ∧
    (∀ c2, heap s2 !! c = Some c2 → _on_answer c2 = None →
           _channel c2 = Some ch →
           Component.answer s2 c v = Some (Component.CallReturned c v, s3)).
Proof.
  intros Hc Hn Hcall [Hch [c2 Hc2]].
  apply call_suspend_inv in Hcall as (x' & x'' & c0 & _ & Hc0 & _ & -> & ->).
  simplify_eq. simpl in Hch. rewrite lookup_insert_eq in Hch.
  pose proof (channel_send_blocked s2 _ (frame_of c c1) v c2 Hch Hc2 Hn) as Hs.
  simpl in Hs. eexists. split; [exact Hs|]. split.
  - rewrite heap_store_eq. by rewrite restored_frame_of.
  - intros c2' Hc2' Hl Hp. unfold Component.answer.
    rewrite Hc2'. simpl. rewrite Hl, Hp. exact Hs.
Qed.

Lemma call_identity_preservation_witness :
  ∃ s3,
    Component.channel_send scenario_meddled 0 (PStr "ok")
    = Some (Component.CallReturned 0 (PStr "ok"), s3) ∧
    heap s3 !! 0 = Some (mkComponent FormA None (VInt 0) (Some "a") (Some heard)) ∧
    (∀ c2, heap scenario_meddled !! 0 = Some c2 → _on_answer c2 = None →
           _channel c2 = Some 0 →
           Component.answer scenario_meddled 0 (PStr "ok")
           = Some (Component.CallReturned 0 (PStr "ok"), s3)).
Proof.
  apply (call_identity_preservation scenario_listening scenario_called
           scenario_meddled 0
           (mkComponent FormA None (VInt 0) (Some "a") (Some heard))
           FormB (VInt 1) None 0 (PStr "ok")).
  - vm_compute. reflexivity.
  - reflexivity.
  - vm_compute. reflexivity.
  - apply (run_still_waiting meddling scenario_called scenario_meddled 0
             (frame_of 0 (mkComponent FormA None (VInt 0) (Some "a")
                            (Some heard)))).
    + vm_compute. reflexivity.
    + vm_compute. reflexivity.
    + vm_compute. eauto.
    + vm_compute. discriminate.
Defined.

(** C2 — Answer routing.  [c.answer(v)]: with a listener [f] installed,
    returns [f v] and touches neither the store nor any channel; with no
    listener and no channel, raises [AnswerWithoutCall]; with no listener
    and a channel on which a caller is blocked, hands [v] to that caller,
    whose [call] returns [v] after restoring its attributes, the channel
    being left idle.  In particular [answer] on a component just built by
    the constructor raises [AnswerWithoutCall]. *)
Theorem answer_routing (s : State) (c : ref) (comp : Component) (v : pyobj) :
  heap s !! c = Some comp →
  (∀ f, _on_answer comp = Some f →
        Component.answer s c v = Some (Component.ListenerReturned (f v), s)) ∧
  (_on_answer comp = None → _channel comp = None →
   Component.answer s c v = Some (Component.RaisedAnswerWithoutCall, s)) ∧
  (∀ ch fr caller,
     _on_answer comp = None → _channel comp = Some ch →
     channels s !! ch = Some (Some fr) →
     heap s !! f_self fr = Some caller →
     isinstance_Component (previous_o fr) = false →
     ∃ s', Component.answer s c v
           = Some (Component.CallReturned (f_self fr) v, s') ∧
           heap s' !! f_self fr = Some (restored fr) ∧
           channels s' !! ch = Some None) ∧
  (∀ s0 x m u r s1,
     Component.__init__ s0 x m u = Some (r, s1) →
     Component.answer s1 r v = Some (Component.RaisedAnswerWithoutCall, s1)).
Proof.
  intros Hc. unfold Component.answer. rewrite Hc. simpl.
  split; [|split; [|split]].
  - by intros f ->.
  - by intros -> ->.
  - intros ch fr caller -> -> Hch Hcaller Hn.
    erewrite channel_send_blocked by done.
    eexists. split; [done|]. split.
    + apply heap_store_eq.
    + simpl. apply lookup_insert_eq.
  - intros s0 x m u r s1 H. unfold Component.__init__ in H.
    destruct (Component.unwrap s0 x) as [x'|]; simplify_eq/=.
    by rewrite lookup_insert_eq.
Qed.

Lemma answer_routing_witness :
  (∀ f, Some heard = Some f →
        Component.answer scenario_listening 0 (PStr "ok")
        = Some (Component.ListenerReturned (f (PStr "ok")), scenario_listening)) ∧
  (Some heard = None → @None chan = None →
   Component.answer scenario_listening 0 (PStr "ok")
   = Some (Component.RaisedAnswerWithoutCall, scenario_listening)) ∧
  (∀ ch fr caller,
     Some heard = None → @None chan = Some ch →
     channels scenario_listening !! ch = Some (Some fr) →
     heap scenario_listening !! f_self fr = Some caller →
     isinstance_Component (previous_o fr) = false →
     ∃ s', Component.answer scenario_listening 0 (PStr "ok")
           = Some (Component.CallReturned (f_self fr) (PStr "ok"), s') ∧
           heap s' !! f_self fr = Some (restored fr) ∧
           channels s' !! ch = Some None) ∧
  (∀ s0 x m u r s1,
     Component.__init__ s0 x m u = Some (r, s1) →
     Component.answer s1 r (PStr "ok")
     = Some (Component.RaisedAnswerWithoutCall, s1)).
Proof.
  apply (answer_routing scenario_listening 0
           (mkComponent FormA None (VInt 0) (Some "a") (Some heard))
           (PStr "ok")).
  vm_compute. reflexivity.
Defined.

(** C3, as stated, fails: a listener installed before [call] is not
    invoked by an answer given while the call is pending. *)
Lemma listener_before_call_not_invoked :
  ¬ (∀ s c f x m u s1 ch s2 v,
       Component.on_answer s c f = Some (c, s1) →
       Component.call_suspend s1 c x m u = Some (ch, s2) →
       ∃ s3, Component.answer s2 c v
             = Some (Component.ListenerReturned (f v), s3)).
Proof.
  intros H.
  destruct (H scenario_wrapped 0 heard FormB (VInt 1) None
              scenario_listening 0 scenario_called (PStr "ok"))
    as [s3 Hs3]; [by vm_compute..|].
  vm_compute in Hs3. discriminate.
Qed.

(** C3, amended — [call] clears the listener for the time of the call.
    If [f] is installed on [c] and [c.call(x, m, u)] is then issued, the
    caller blocks on the fresh channel, [c] has no listener while the call
    is pending, [c.answer(v)] goes through the channel (the call returns
    [v], [f] is not invoked) and [f] is the listener of [c] again
    afterwards. *)
Theorem listener_suspended_during_call (s : State) (c : ref)
    (comp : Component) (f : listener) (x x' : pyobj) (m : view)
    (u : option string) (v : pyobj) :
  no_nested s →
  heap s !! c = Some comp →
  Component.unwrap s x = Some x' →
  ∃ s1 ch s2 s3 fr,
    Component.on_answer s c f = Some (c, s1) ∧
    Component.call_suspend s1 c x m u = Some (ch, s2) ∧
    channels s2 !! ch = Some (Some fr) ∧ previous_on_answer fr = Some f ∧
    _on_answer <$> heap s2 !! c = Some None ∧
    Component.answer s2 c v = Some (Component.CallReturned c v, s3) ∧
    _on_answer <$> heap s3 !! c = Some (Some f).
Proof.
  intros Hs Hc Hx.
  assert (isinstance_Component x' = false) as Hx'
    by eauto using unwrap_not_component.
  assert (isinstance_Component (o comp) = false) as Hn by eauto.
  set (comp1 := mkComponent (o comp) (_channel comp) (model comp) (url comp)
                  (Some f)).
  set (s1 := store c comp1 s).
  assert (Component.unwrap s1 x = Some x') as Hx1.
  { destruct x; try done. simpl in *. unfold Component.__call__ in *.
    destruct (decide (c = r)) as [->|Hne].
    - subst s1. rewrite heap_store_eq. rewrite Hc in Hx. by simplify_eq/=.
    - subst s1. by rewrite heap_store_ne. }
  pose proof (call_suspend_intro s1 c x x' m u comp1 Hx1 Hx'
                (heap_store_eq s c comp1)) as Hcall.
  set (ch := fresh (dom (channels s1))) in *.
  eexists s1, ch, _, _, (frame_of c comp1).
  split; [|split; [exact Hcall|]].
  { unfold Component.on_answer. by rewrite Hc. }
  split; [apply lookup_insert_eq|]. split; [done|]. split.
  { simpl. by rewrite lookup_insert_eq. }
  split.
  - unfold Component.answer. simpl. rewrite lookup_insert_eq. simpl.
    erewrite (channel_send_blocked _ ch (frame_of c comp1));
      [done|apply lookup_insert_eq| |done].
    simpl. apply lookup_insert_eq.
  - by rewrite heap_store_eq.
Qed.

Lemma listener_suspended_during_call_witness :
  ∃ s1 ch s2 s3 fr,
    Component.on_answer scenario_wrapped 0 heard = Some (0, s1) ∧
    Component.call_suspend s1 0 FormB (VInt 1) None = Some (ch, s2) ∧
    channels s2 !! ch = Some (Some fr) ∧ previous_on_answer fr = Some heard ∧
    _on_answer <$> heap s2 !! 0 = Some None ∧
    Component.answer s2 0 (PStr "ok")
    = Some (Component.CallReturned 0 (PStr "ok"), s3) ∧
    _on_answer <$> heap s3 !! 0 = Some (Some heard).
Proof.
  apply (listener_suspended_during_call scenario_wrapped 0
           (mkComponent FormA None (VInt 0) (Some "a") None)
           heard FormB FormB (VInt 1) None (PStr "ok")).
  - apply (init_no_nested empty_state FormA (VInt 0) (Some "a") 0
             scenario_wrapped no_nested_empty).
    vm_compute. reflexivity.
  - vm_compute. reflexivity.
  - reflexivity.
Defined.

(** ** Construction and replacement *)

(** C6 — No nested payloads.  Starting from a store where no payload is
    a component (the empty store is one), any program of constructor calls,
    [becomes], [call], [answer] (with the rest of the call it resumes) and
    [on_answer] leads to a store where no payload is a component; and
    there, given a component [r] as argument, the constructor, [becomes]
    and [call] each store the payload of [r], not [r]. *)
Theorem payload_never_a_component (ops : list op) (s0 s : State) :
  no_nested s0 →
  run ops s0 = Some s →
  no_nested s ∧
  (∀ self comp r cr m u,
     heap s !! self = Some comp → heap s !! r = Some cr →
     (∃ new s', Component.__init__ s (PComponent r) m u = Some (new, s') ∧
                o <$> heap s' !! new = Some (o cr)) ∧
     (∃ s', Component.becomes s self (PComponent r) m u = Some (self, s') ∧
            o <$> heap s' !! self = Some (o cr)) ∧
     (∃ ch s', Component.call_suspend s self (PComponent r) m u
               = Some (ch, s') ∧
               o <$> heap s' !! self = Some (o cr))).
Proof.
  intros Hs0 Hrun.
  assert (no_nested s) as Hs by by eapply run_no_nested.
  split; [done|]. intros self comp r cr m u Hself Hr.
  pose proof (unwrap_component s r cr Hr) as Hx.
  assert (isinstance_Component (o cr) = false) as Hn by eauto.
  split; [|split].
  - unfold Component.__init__. rewrite Hx. simpl.
    eexists _, _. split; [done|]. by rewrite heap_store_eq.
  - erewrite becomes_intro by done.
    eexists. split; [done|]. by rewrite heap_store_eq.
  - erewrite call_suspend_intro by done.
    eexists _, _. split; [done|]. simpl. by rewrite lookup_insert_eq.
Qed.

Lemma payload_never_a_component_witness :
  ∃ s,
    run [OpNew FormA (VInt 0) None;
         OpNew (PComponent 0) VNone (Some "b");
         OpBecomes 0 (PComponent 1) (VStr "edit") None;
         OpCall 1 (PComponent 0) (VInt 0) None;
         OpAnswer 1 (PStr "ok")] empty_state = Some s ∧
    heap s !! 1 = Some (mkComponent FormA None VNone (Some "b") None) ∧
    no_nested s.
Proof.
  eexists. split; [vm_compute; reflexivity|]. split; [vm_compute; reflexivity|].
  eapply (payload_never_a_component
            [OpNew FormA (VInt 0) None;
             OpNew (PComponent 0) VNone (Some "b");
             OpBecomes 0 (PComponent 1) (VStr "edit") None;
             OpCall 1 (PComponent 0) (VInt 0) None;
             OpAnswer 1 (PStr "ok")] empty_state).
  - exact no_nested_empty.
  - vm_compute. reflexivity.
Defined.

(** C7, as stated, fails: a supplied url is not always stored. *)
Lemma becomes_supplied_url_not_always_stored :
  ¬ (∀ s c comp x m u0 s',
       heap s !! c = Some comp →
       Component.becomes s c x m (Some u0) = Some (c, s') →
       url <$> heap s' !! c = Some (Some u0)).
Proof.
  intros H.
  pose proof (H scenario_wrapped 0
                (mkComponent FormA None (VInt 0) (Some "a") None)
                FormB (VInt 0) ""
                (store 0 (mkComponent FormB None (VInt 0) (Some "a") None)
                   scenario_wrapped)) as H0.
  vm_compute in H0. specialize (H0 eq_refl eq_refl). discriminate.
Qed.

(** C7, amended — [c.becomes(x, m, u)] returns [c] and changes [c] in
    place: the payload is [x], unwrapped when [x] is a component; the view
    is [m]; the url is [u] when [u] is a non-empty string and the previous
    url when [u] is [None] or the empty string; channel and listener are
    kept; no other component and no channel is touched. *)
Theorem becomes_postconditions (s : State) (c : ref) (comp : Component)
    (x x' : pyobj) (m : view) (u : option string) :
  heap s !! c = Some comp →
  Component.unwrap s x = Some x' →
  (isinstance_Component x = false → x' = x) ∧
  (∀ r cr, x = PComponent r → heap s !! r = Some cr → x' = o cr) ∧
  ∃ s' comp',
    Component.becomes s c x m u = Some (c, s') ∧
    heap s' !! c = Some comp' ∧
    o comp' = x' ∧ model comp' = m ∧
    (u = None ∨ u = Some "" → url comp' = url comp) ∧
    (∀ u0, u = Some u0 → u0 ≠ "" → url comp' = Some u0) ∧
    _channel comp' = _channel comp ∧ _on_answer comp' = _on_answer comp ∧
    (∀ r, r ≠ c → heap s' !! r = heap s !! r) ∧
    channels s' = channels s.
Proof.
  intros Hc Hx. split; [|split].
  - intros Hn. rewrite unwrap_other in Hx by done. by simplify_eq.
  - intros r cr -> Hr. erewrite unwrap_component in Hx by done. by simplify_eq.
  - exists (store c (after_becomes comp x' m u) s), (after_becomes comp x' m u).
    split; [by apply becomes_intro|]. split; [apply heap_store_eq|].
    simpl. repeat split; try done.
    + by intros [->| ->].
    + intros u0 -> Hne. simpl. by apply String.eqb_neq in Hne as ->.
    + intros r Hne. by apply heap_store_ne.
Qed.

Lemma becomes_postconditions_witness :
  (isinstance_Component (PComponent 0) = false → FormB = PComponent 0) ∧
  (∀ r cr, PComponent 0 = PComponent r → heap scenario_called !! r = Some cr →
           FormB = o cr) ∧
  ∃ s' comp',
    Component.becomes scenario_called 0 (PComponent 0) VNone (Some "")
    = Some (0, s') ∧
    heap s' !! 0 = Some comp' ∧
    o comp' = FormB ∧ model comp' = VNone ∧
    (Some "" = None ∨ Some "" = Some "" → url comp' = Some "a") ∧
    (∀ u0, Some "" = Some u0 → u0 ≠ "" → url comp' = Some u0) ∧
    _channel comp' = Some 0 ∧ _on_answer comp' = None ∧
    (∀ r, r ≠ 0 → heap s' !! r = heap scenario_called !! r) ∧
    channels s' = channels scenario_called.
Proof.
  apply (becomes_postconditions scenario_called 0
           (mkComponent FormB (Some 0) (VInt 1) (Some "a") None)
           (PComponent 0) FormB VNone (Some ""));
    vm_compute; reflexivity.
Defined.

(** ** The task driver *)

Section driver_facts.

Variable go : ref → State → go_result * State.

Lemma forever_outcome fuel : ∀ comp s calls,
  ∃ out s' calls',
    Task.forever go fuel comp s calls = (out, s', calls') ∧
    (∀ a, out ≠ Answered a) ∧
    (out = StillLooping → calls' = calls + fuel).
Proof.
  induction fuel as [|fuel IH]; intros comp s calls; simpl.
  - exists StillLooping, s, calls. repeat split; [done|lia].
  - destruct (go comp s) as [[v|e] s1].
    + destruct (IH comp s1 (S calls)) as (out & s' & calls' & -> & Hn & Hl).
      exists out, s', calls'. repeat split; [done|]. intros ->.
      rewrite Hl by done. lia.
    + exists (Propagated e), s1, (S calls). repeat split; done.
Qed.

Lemma forever_loops fuel :
  (∀ c0 s0, ∃ v s0', go c0 s0 = (GoReturns v, s0')) →
  ∀ comp s calls,
    ∃ s', Task.forever go fuel comp s calls = (StillLooping, s', calls + fuel).
Proof.
  intros Hgo. induction fuel as [|fuel IH]; intros comp s calls; simpl.
  - exists s. f_equal. lia.
  - destruct (Hgo comp s) as (v & s1 & ->).
    destruct (IH comp s1 (S calls)) as (s' & ->).
    exists s'. f_equal. lia.
Qed.

Lemma forever_go_times n : ∀ comp s calls sn,
  go_times go n comp s = Some sn →
  Task.forever go n comp s calls = (StillLooping, sn, calls + n).
Proof.
  induction n as [|n IH]; intros comp s calls sn H; simpl in *.
  - injection H as <-. f_equal. lia.
  - destruct (go comp s) as [[v|e] s1]; [|done].
    rewrite (IH comp s1 (S calls) sn H). f_equal. lia.
Qed.

Lemma forever_still_looping fuel : ∀ comp s calls s' calls',
  Task.forever go fuel comp s calls = (StillLooping, s', calls') →
  go_times go fuel comp s = Some s' ∧ calls' = calls + fuel.
Proof.
  induction fuel as [|fuel IH]; intros comp s calls s' calls' H; simpl in *.
  - injection H as <- <-. split; [done|lia].
  - destruct (go comp s) as [[v|e] s1]; [|done].
    destruct (IH comp s1 (S calls) s' calls' H) as [Hs ->].
    split; [done|lia].
Qed.

Lemma forever_raises n : ∀ comp s calls sn e s' m,
  go_times go n comp s = Some sn →
  go comp sn = (GoRaises e, s') →
  Task.forever go (n + S m) comp s calls = (Propagated e, s', calls + S n).
Proof.
  induction n as [|n IH]; intros comp s calls sn e s' m H Hgo; simpl in *.
  - injection H as <-. rewrite Hgo. f_equal. lia.
  - destruct (go comp s) as [[v|e0] s1]; [|done].
    rewrite (IH comp s1 (S calls) sn e s' m H Hgo). f_equal. lia.
Qed.

Lemma go_times_total :
  (∀ c0 s0, ∃ v s0', go c0 s0 = (GoReturns v, s0')) →
  ∀ n comp s, ∃ s', go_times go n comp s = Some s'.
Proof.
  intros Hgo n. induction n as [|n IH]; intros comp s; simpl.
  - by exists s.
  - destruct (Hgo comp s) as (v & s1 & ->). apply IH.
Qed.

End driver_facts.

(** C4 — Root versus nested task.  Let [c] be a component and [go] the
    method of a task.  If [c] has no channel, [_go] invokes [go] again and
    again and never answers or returns: whenever [n] invocations of [go] in
    a row return, [_go] is still looping after these [n] invocations, in
    the store the last of them left; if the next invocation raises, [_go]
    ends with that exception after [n + 1] invocations, which is the only
    way out; conversely a loop still running after [fuel] iterations has
    invoked [go] [fuel] times; and if [go] always returns, the loop is
    still running after every number of invocations.  If [c] has a channel,
    [_go] invokes [go] exactly once and runs [c.answer] on the value [go]
    returned, in the store [go] left (or lets the exception of [go]
    through); when [c] still has no listener and the caller of [c.call] is
    still blocked on that channel, that call returns the value of [go] and
    [c] gets the caller's attributes back. *)
Theorem root_vs_nested_task (go : ref → State → go_result * State)
    (s : State) (c : ref) (comp : Component) :
  heap s !! c = Some comp →
  (_channel comp = None →
   (∀ fuel, ∃ out s' calls,
      Task._go go fuel c s = Some (out, s', calls) ∧
      (∀ a, out ≠ Answered a) ∧
      (out = StillLooping →
       calls = fuel ∧ go_times go fuel c s = Some s')) ∧
   (∀ n sn, go_times go n c s = Some sn →
            Task._go go n c s = Some (StillLooping, sn, n)) ∧
   (∀ n sn e s', go_times go n c s = Some sn →
                 go c sn = (GoRaises e, s') →
                 ∀ fuel, n < fuel →
                 Task._go go fuel c s = Some (Propagated e, s', S n)) ∧
   ((∀ c0 s0, ∃ v s0', go c0 s0 = (GoReturns v, s0')) →
    ∀ fuel, ∃ s', go_times go fuel c s = Some s' ∧
                  Task._go go fuel c s = Some (StillLooping, s', fuel))) ∧
  (∀ ch, _channel comp = Some ch →
     (∀ fuel e s', go c s = (GoRaises e, s') →
        Task._go go fuel c s = Some (Propagated e, s', 1)) ∧
     (∀ fuel v s', go c s = (GoReturns v, s') →
        Task._go go fuel c s
        = ('(a, s'') ← Component.answer s' c v; Some (Answered a, s'', 1)) ∧
        (∀ comp' fr,
           heap s' !! c = Some comp' → _on_answer comp' = None →
           _channel comp' = Some ch →
           channels s' !! ch = Some (Some fr) → f_self fr = c →
           isinstance_Component (previous_o fr) = false →
           ∃ s'', Task._go go fuel c s
                  = Some (Answered (Component.CallReturned c v), s'', 1) ∧
                  heap s'' !! c = Some (restored fr)))).
Proof.
  intros Hc. unfold Task._go. rewrite Hc. simpl. split.
  - intros ->. split_and!.
    + intros fuel.
      destruct (forever_outcome go fuel c s 0) as (out & s' & n & Hf & Hn & Hl).
      rewrite Hf. exists out, s', n. split; [done|]. split; [done|].
      intros ->. destruct (forever_still_looping go fuel c s 0 s' n Hf)
        as [Hs ->].
      split; [lia|done].
    + intros n sn Hn. by rewrite (forever_go_times go n c s 0 sn Hn).
    + intros n sn e s' Hn Hgo fuel Hlt.
      replace fuel with (n + S (fuel - S n)) by lia.
      by rewrite (forever_raises go n c s 0 sn e s' _ Hn Hgo).
    + intros Hgo fuel.
      destruct (go_times_total go Hgo fuel c s) as (s' & Hs).
      exists s'. split; [done|].
      by rewrite (forever_go_times go fuel c s 0 s' Hs).
  - intros ch ->. split.
    + by intros fuel e s' ->.
    + intros fuel v s' ->. split; [done|].
      intros comp' fr Hc' Hl Hch Hfr Hself Hn.
      unfold Component.answer. rewrite Hc'. simpl. rewrite Hl, Hch.
      erewrite (channel_send_blocked s' ch fr v comp');
        [|done|by rewrite Hself|done].
      simpl. rewrite Hself. eexists. split; [done|]. apply heap_store_eq.
Qed.

Lemma root_vs_nested_task_witness :
  (Task._go counting_go 2 0 (counter 0)
   = Some (StillLooping, counter 2, 2) ∧
   Task._go counting_go 5 0 (counter 0)
   = Some (Propagated "StopIteration", counter 2, 3)) ∧
  (∀ fuel, ∃ s', go_times sample_go fuel 0 scenario_wrapped = Some s' ∧
                 Task._go sample_go fuel 0 scenario_wrapped
                 = Some (StillLooping, s', fuel)) ∧
  (∃ s'', Task._go sample_go 3 0 scenario_called
          = Some (Answered (Component.CallReturned 0 (PInt 7)), s'', 1) ∧
          heap s'' !! 0
          = Some (mkComponent FormA None (VInt 0) (Some "a") (Some heard))).
Proof.
  split; [|split].
  - pose proof (root_vs_nested_task counting_go (counter 0) 0
                  (mkComponent (PInt 0) None (VInt 0) None None)
                  ltac:(vm_compute; reflexivity)) as [Hroot _].
    destruct (Hroot eq_refl) as (_ & Hloop & Hexit & _). split.
    + apply (Hloop 2 (counter 2)). vm_compute. reflexivity.
    + apply (Hexit 2 (counter 2) "StopIteration" (counter 2));
        [vm_compute; reflexivity..|lia].
  - pose proof (root_vs_nested_task sample_go scenario_wrapped 0
                  (mkComponent FormA None (VInt 0) (Some "a") None)
                  ltac:(vm_compute; reflexivity)) as [Hroot _].
    destruct (Hroot eq_refl) as (_ & _ & _ & Htotal).
    apply Htotal. intros c0 s0. by exists (PInt 7), s0.
  - apply (root_vs_nested_task sample_go scenario_called 0
             (mkComponent FormB (Some 0) (VInt 1) (Some "a") None)
             ltac:(vm_compute; reflexivity) : _ ∧ _) with
      (ch := 0) (s' := scenario_called)
      (comp' := mkComponent FormB (Some 0) (VInt 1) (Some "a") None)
      (fr := frame_of 0 (mkComponent FormA None (VInt 0) (Some "a") (Some heard)));
      try reflexivity; vm_compute; reflexivity.
Defined.

(** ** Render and init dispatch *)

Lemma view_is_0_spec (m : view) : view_is_0 m = true ↔ m = VInt 0.
Proof.
  destruct m as [z| |name]; simpl; [|naive_solver..].
  rewrite Z.eqb_eq. naive_solver.
Qed.

(** C8 — Component render dispatch.  Rendering component [self] with
    view argument [m] under [renderer] makes exactly these calls, in this
    order: [renderer.new()], giving the child scope; [start_rendering(self,
    m)] on the child, with the view as passed; [presentation.render] of the
    payload under the child, with the effective view, which is the view of
    the component when [m] is [0] and [m] otherwise; [end_rendering] of the
    output on the child, whose result is returned. *)
Theorem component_render_dispatch {Renderer Output : Type}
    (new : Renderer → State → Renderer * State)
    (start_rendering : Renderer → ref → view → State → State)
    (end_rendering : Renderer → Output → State → Output * State)
    (presentation_render :
       pyobj → Renderer → ref → view → State → Output * State)
    (s s1 s3 s4 : State) (tr : list presentation.event) (self : ref)
    (renderer renderer' : Renderer) (m m' : view) (comp : Component)
    (output res : Output) :
  new renderer s = (renderer', s1) →
  heap (start_rendering renderer' self m s1) !! self = Some comp →
  m' = (if view_is_0 m then model comp else m) →
  presentation_render (o comp) renderer' self m'
    (start_rendering renderer' self m s1) = (output, s3) →
  end_rendering renderer' output s3 = (res, s4) →
  presentation.Component_render new start_rendering end_rendering
    presentation_render self renderer m s tr
  = Some (res, s4,
          tr ++ [presentation.ENew renderer renderer';
                 presentation.EStartRendering renderer' self m;
                 presentation.ERender (o comp) renderer' self m' output;
                 presentation.EEndRendering renderer' output res]) ∧
  (m = VInt 0 → m' = model comp) ∧
  (m ≠ VInt 0 → m' = m).
Proof.
  intros Hnew Hc -> Hrender Hend. split; [|split].
  - unfold presentation.Component_render, presentation.render,
      presentation.collaborator, presentation.attributes, mbind,
      presentation.M_bind.
    rewrite Hnew. simpl. rewrite Hc. simpl. rewrite Hrender, Hend.
    by rewrite <- !app_assoc.
  - by intros ->.
  - intros Hm. destruct (view_is_0 m) eqn:H0; [|done].
    by apply view_is_0_spec in H0.
Qed.

Lemma component_render_dispatch_witness :
  presentation.Component_render sample_new sample_start_rendering
    sample_end_rendering sample_presentation_render 0 4 (VInt 0)
    (store 0 (mkComponent FormB (Some 0) (VStr "edit") None None) empty_state)
    []
  = Some ("<div>edit",
          store 0 (mkComponent FormB (Some 0) (VStr "edit") None None)
            empty_state,
          [] ++ [presentation.ENew 4 5;
                 presentation.EStartRendering 5 0 (VInt 0);
                 presentation.ERender FormB 5 0 (VStr "edit") "edit";
                 presentation.EEndRendering 5 "edit" "<div>edit"]) ∧
  (VInt 0 = VInt 0 → VStr "edit" = VStr "edit") ∧
  (VInt 0 ≠ VInt 0 → VStr "edit" = VInt 0).
Proof.
  apply (component_render_dispatch sample_new sample_start_rendering
           sample_end_rendering sample_presentation_render
           (store 0 (mkComponent FormB (Some 0) (VStr "edit") None None)
              empty_state)
           (store 0 (mkComponent FormB (Some 0) (VStr "edit") None None)
              empty_state)
           (store 0 (mkComponent FormB (Some 0) (VStr "edit") None None)
              empty_state)
           (store 0 (mkComponent FormB (Some 0) (VStr "edit") None None)
              empty_state)
           [] 0 4 5 (VInt 0) (VStr "edit")
           (mkComponent FormB (Some 0) (VStr "edit") None None)
           "edit" "<div>edit"); reflexivity.
Defined.

(** C5 — what the code does: whatever the payload answers to the rest of
    the url, [NOT_FOUND] included, [Component.init] calls the payload's
    [init] once, drops its result and returns [None]. *)
Theorem init_never_signals_not_found
    (presentation_init :
       pyobj → string → ref → string → pyobj → State → pyobj * State)
    (s s' : State) (tr : list (@presentation.event unit unit)) (self : ref)
    (comp : Component) (url http_method : string) (request res : pyobj) :
  heap s !! self = Some comp →
  presentation_init (o comp) url self http_method request s = (res, s') →
  presentation.Component_init presentation_init self url http_method request
    s tr
  = Some (PNone, s',
          tr ++ [presentation.EInit (o comp) url self http_method request res]).
Proof.
  intros Hc Hinit.
  unfold presentation.Component_init, presentation.init_for,
    presentation.collaborator, presentation.attributes, mbind,
    presentation.M_bind.
  rewrite Hc. simpl. by rewrite Hinit.
Qed.

Lemma init_never_signals_not_found_witness :
  presentation.Component_init sample_presentation_init 0 "no/such/page" "GET"
    (PObj 9) scenario_wrapped ([] : list (@presentation.event unit unit))
  = Some (PNone, scenario_wrapped,
          [] ++ [presentation.EInit FormA "no/such/page" 0 "GET" (PObj 9)
                   PNotFound]).
Proof.
  apply (init_never_signals_not_found sample_presentation_init
           scenario_wrapped scenario_wrapped [] 0
           (mkComponent FormA None (VInt 0) (Some "a") None)
           "no/such/page" "GET" (PObj 9) PNotFound).
  - vm_compute. reflexivity.
  - reflexivity.
Defined.

(** ** Security *)

Section security_facts.

Import security.

Implicit Types (rq : Request) (tr : list event) (perm subject : pyobj).

Lemma get_user_eq rq tr :
  get_user rq tr
  = (inl (match user rq with
          | Some usr => if expired usr then None else Some usr
          | None => None
          end), rq, tr).
Proof.
  unfold get_user, _get_user, mbind, M_bind, mret, M_ret.
  destruct (user rq) as [usr|]; [|done]. by destruct (expired usr).
Qed.

Lemma has_permissions_eq perm subject rq tr u :
  get_user rq tr = (inl u, rq, tr) →
  has_permissions perm subject rq tr
  = (inl (has_permission (security_manager rq) u perm subject), rq,
     tr ++ [EHasPermission u perm subject]).
Proof.
  intros Hu. unfold has_permissions, get_manager, call_has_permission.
  unfold mbind, M_bind at 1. unfold M_bind. by rewrite Hu.
Qed.

Lemma check_permissions_eq perm subject rq tr u :
  get_user rq tr = (inl u, rq, tr) →
  check_permissions perm subject rq tr
  = let credential := has_permission (security_manager rq) u perm subject in
    let checked := tr ++ [EHasPermission u perm subject] in
    if truthy credential then (inl credential, rq, checked)
    else
      let denied := if is_False credential then PStr "" else credential in
      match denies (security_manager rq) denied with
      | Some e => (inr e, rq, checked ++ [EDenies denied])
      | None => (inl denied, rq, checked ++ [EDenies denied])
      end.
Proof.
  intros Hu. unfold check_permissions. unfold mbind, M_bind at 1.
  rewrite (has_permissions_eq _ _ _ _ u Hu). simpl.
  destruct (truthy _); simpl; [done|].
  unfold mbind, M_bind, get_manager, call_denies, mret, M_ret.
  by destruct (denies _ _).
Qed.

End security_facts.

Section security_claims.

Import security.

(** C9 — where the code departs from it: the check is not always made
    on the configured subject. *)
Lemma wrapper_check_not_always_on_subject :
  ¬ (∀ action perm subject args rq tr,
       perm ≠ PNone →
       ∃ u rest,
         (wrapper action perm subject args rq tr).2
         = tr ++ EHasPermission u perm subject :: rest).
Proof.
  intros H.
  destruct (H sample_action (PStr "edit") (PInt 0) []
              (mkRequest (Some alice) sample_manager) [])
    as (u & rest & Hev); [done|].
  vm_compute in Hev. discriminate.
Qed.

(** C9 — what the code does.  With a permission other than [None],
    invoking the wrapped action first asks the manager's [has_permission]
    about the visible user, the permission and [subject or None]: the
    configured subject when it is true as a truth value, but [None] in
    place of a configured subject that is false as a truth value, although
    the docstrings name the subject as the object to check the permissions
    on.  If the credential is true the action runs next.  If it is
    false, [denies] is called before anything else, with the empty string
    when the credential is [False] and with the credential otherwise; an
    exception of [denies] ends the invocation, and if [denies] returns the
    action runs.  With permission [None] the wrapper returns the action
    itself. *)
Theorem wrapper_checks_permissions (action : Action) (perm subject : pyobj)
    (args : list pyobj) (rq : Request) (tr : list event) (u : option User)
    (credential : pyobj) :
  perm ≠ PNone →
  get_user rq tr = (inl u, rq, tr) →
  credential
  = has_permission (security_manager rq) u perm (py_or subject PNone) →
  (truthy credential = true →
   wrapper action perm subject args rq tr
   = action args rq (tr ++ [EHasPermission u perm (py_or subject PNone)])) ∧
  (truthy credential = false →
   ∀ denied, denied = (if is_False credential then PStr "" else credential) →
     (∀ e, denies (security_manager rq) denied = Some e →
           wrapper action perm subject args rq tr
           = (inr e, rq,
              tr ++ [EHasPermission u perm (py_or subject PNone);
                     EDenies denied])) ∧
     (denies (security_manager rq) denied = None →
      wrapper action perm subject args rq tr
      = action args rq
          (tr ++ [EHasPermission u perm (py_or subject PNone);
                  EDenies denied])) ∧
     (credential = PBool false → denied = PStr "")) ∧
  (truthy subject = true → py_or subject PNone = subject) ∧
  (truthy subject = false → py_or subject PNone = PNone) ∧
  wrapper action PNone subject = action.
Proof.
  intros Hperm Hu ->.
  assert (wrapper action perm subject args rq tr
          = match check_permissions perm (py_or subject PNone) rq tr with
            | (inl _, rq', tr') => action args rq' tr'
            | (inr e, rq', tr') => (inr e, rq', tr')
            end)
    as -> by by destruct perm.
  rewrite (check_permissions_eq _ _ _ _ u Hu). simpl.
  split; [by intros ->|]. split; [|split; [|split]].
  - intros -> denied ->. rewrite <- !app_assoc. simpl.
    split; [by intros e ->|]. split; [by intros ->|by intros ->].
  - unfold py_or. by intros ->.
  - unfold py_or. by intros ->.
  - done.
Qed.

Lemma wrapper_checks_permissions_witness :
  (truthy (PBool false) = true →
   wrapper sample_action (PStr "edit") (PInt 0) [PStr "x"]
     (mkRequest (Some bob) sample_manager) []
   = sample_action [PStr "x"] (mkRequest (Some bob) sample_manager)
       ([] ++ [EHasPermission None (PStr "edit") (py_or (PInt 0) PNone)])) ∧
  (truthy (PBool false) = false →
   ∀ denied, denied = (if is_False (PBool false) then PStr "" else PBool false) →
     (∀ e, denies sample_manager denied = Some e →
           wrapper sample_action (PStr "edit") (PInt 0) [PStr "x"]
             (mkRequest (Some bob) sample_manager) []
           = (inr e, mkRequest (Some bob) sample_manager,
              [] ++ [EHasPermission None (PStr "edit") (py_or (PInt 0) PNone);
                     EDenies denied])) ∧
     (denies sample_manager denied = None →
      wrapper sample_action (PStr "edit") (PInt 0) [PStr "x"]
        (mkRequest (Some bob) sample_manager) []
      = sample_action [PStr "x"] (mkRequest (Some bob) sample_manager)
          ([] ++ [EHasPermission None (PStr "edit") (py_or (PInt 0) PNone);
                  EDenies denied])) ∧
     (PBool false = PBool false → denied = PStr "")) ∧
  (truthy (PInt 0) = true → py_or (PInt 0) PNone = PInt 0) ∧
  (truthy (PInt 0) = false → py_or (PInt 0) PNone = PNone) ∧
  wrapper sample_action PNone (PInt 0) = sample_action.
Proof.
  apply (wrapper_checks_permissions sample_action (PStr "edit") (PInt 0)
           [PStr "x"] (mkRequest (Some bob) sample_manager) [] None
           (PBool false)).
  - discriminate.
  - reflexivity.
  - reflexivity.
Defined.

(** C10 — Expired users are hidden.  [get_user()] returns [None] when no
    user is set and when the current user is expired, and the user itself
    when it is set and not expired; it changes nothing.  So it only ever
    returns [None] or a user that is not expired, and [has_permissions]
    passes exactly that to the manager's [has_permission]: [None] in place
    of an expired user. *)
Theorem expired_users_hidden (rq : Request) (tr : list event) :
  (user rq = None → get_user rq tr = (inl None, rq, tr)) ∧
  (∀ usr, user rq = Some usr → expired usr = true →
          get_user rq tr = (inl None, rq, tr)) ∧
  (∀ usr, user rq = Some usr → expired usr = false →
          get_user rq tr = (inl (Some usr), rq, tr)) ∧
  (∀ usr rq' tr', get_user rq tr = (inl (Some usr), rq', tr') →
                  user rq = Some usr ∧ expired usr = false) ∧
  (∀ perm subject, ∃ u,
     get_user rq tr = (inl u, rq, tr) ∧
     has_permissions perm subject rq tr
     = (inl (has_permission (security_manager rq) u perm subject), rq,
        tr ++ [EHasPermission u perm subject]) ∧
     (∀ usr, user rq = Some usr → expired usr = true → u = None)).
Proof.
  rewrite get_user_eq. split; [by intros ->|]. split; [by intros usr -> ->|].
  split; [by intros usr -> ->|]. split.
  - intros usr rq' tr' H. destruct (user rq) as [usr'|]; [|by simplify_eq].
    destruct (expired usr') eqn:He; by simplify_eq.
  - intros perm subject. eexists. split; [done|]. split.
    + apply has_permissions_eq, get_user_eq.
    + by intros usr -> ->.
Qed.

End security_claims.

(** * Further properties of the component model *)

(** ** The stack discipline of suspended callers *)

Section linked_facts.

Implicit Types (s : State) (c : Component) (r self : ref) (x : pyobj).

Lemma linked_empty : linked empty_state.
Proof.
  unfold linked, empty_state; simpl.
  split_and!; intros *; rewrite ?lookup_empty; done.
Qed.

Lemma store_alive s self c' r :
  is_Some (heap s !! r) → is_Some (heap (store self c' s) !! r).
Proof. intros Hr. simpl. rewrite lookup_insert_is_Some'. auto. Qed.

(** Rewriting the attributes of a live component, its channel apart. *)
Lemma linked_update s self c c' :
  linked s → heap s !! self = Some c → _channel c' = _channel c →
  linked (store self c' s).
Proof.
  intros (L1 & L2 & L3 & L4 & L5) Hc Hch. split_and!.
  - intros r comp ch Hr Hp. destruct (decide (self = r)) as [->|Hne].
    + rewrite heap_store_eq in Hr. injection Hr as <-. rewrite Hch in Hp. eauto.
    + rewrite heap_store_ne in Hr by done. eauto.
  - exact L2.
  - intros ch fr Hfr. destruct (L3 ch fr Hfr) as [Ha Hn].
    split; [by apply store_alive|done].
  - exact L4.
  - intros r comp ch0 fr ch' Hr Hp. destruct (decide (self = r)) as [->|Hne].
    + rewrite heap_store_eq in Hr. injection Hr as <-. rewrite Hch in Hp. eauto.
    + rewrite heap_store_ne in Hr by done. eauto.
Qed.

(** A new component, with no channel. *)
Lemma linked_new s self c' :
  linked s → _channel c' = None → heap s !! self = None →
  linked (store self c' s).
Proof.
  intros (L1 & L2 & L3 & L4 & L5) Hch Hc. split_and!.
  - intros r comp ch Hr Hp. destruct (decide (self = r)) as [->|Hne].
    + rewrite heap_store_eq in Hr. injection Hr as <-. congruence.
    + rewrite heap_store_ne in Hr by done. eauto.
  - exact L2.
  - intros ch fr Hfr. destruct (L3 ch fr Hfr) as [Ha Hn].
    split; [by apply store_alive|done].
  - exact L4.
  - intros r comp ch0 fr ch' Hr Hp. destruct (decide (self = r)) as [->|Hne].
    + rewrite heap_store_eq in Hr. injection Hr as <-. congruence.
    + rewrite heap_store_ne in Hr by done. eauto.
Qed.

(** [call]: a caller of [self] blocks on a fresh channel. *)
Lemma linked_push s self c ch c' :
  linked s → heap s !! self = Some c → channels s !! ch = None →
  isinstance_Component (o c) = false → _channel c' = Some ch →
  linked (set_channels (<[ch := Some (frame_of self c)]> (channels s))
            (store self c' s)).
Proof.
  intros (L1 & L2 & L3 & L4 & L5) Hc Hfresh Hn Hch.
  assert (∀ ch0 fr0, channels s !! ch0 = Some (Some fr0) → ch0 ≠ ch) as Hold
    by (intros ch0 fr0 H0 ->; congruence).
  assert (∀ ch0 fr0, channels s !! ch0 = Some (Some fr0) →
                     previous_channel fr0 ≠ Some ch) as Hnoptr.
  { intros ch0 fr0 H0 Hp. destruct (L2 _ _ _ H0 Hp) as (fr' & Hfr' & _).
    congruence. }
  split_and!; simpl.
  - intros r comp ch0 Hr Hp. destruct (decide (self = r)) as [->|Hne].
    + rewrite lookup_insert_eq in Hr. injection Hr as <-. rewrite Hch in Hp.
      injection Hp as <-. rewrite lookup_insert_eq. by eexists.
    + rewrite lookup_insert_ne in Hr by done.
      destruct (L1 _ _ _ Hr Hp) as (fr & Hfr & Hs).
      rewrite lookup_insert_ne by (intros <-; congruence). eauto.
  - intros ch0 fr ch' Hfr Hp. destruct (decide (ch = ch0)) as [->|Hne].
    + rewrite lookup_insert_eq in Hfr. injection Hfr as <-. simpl in *.
      destruct (L1 _ _ _ Hc Hp) as (fr' & Hfr' & Hs).
      rewrite lookup_insert_ne by (intros <-; congruence). eauto.
    + rewrite lookup_insert_ne in Hfr by done.
      destruct (L2 _ _ _ Hfr Hp) as (fr' & Hfr' & Hs).
      rewrite lookup_insert_ne by (intros <-; congruence). eauto.
  - intros ch0 fr Hfr. destruct (decide (ch = ch0)) as [->|Hne].
    + rewrite lookup_insert_eq in Hfr. injection Hfr as <-. simpl.
      split; [|done]. rewrite lookup_insert_is_Some'. auto.
    + rewrite lookup_insert_ne in Hfr by done.
      destruct (L3 _ _ Hfr) as [Ha Hn']. split; [|done].
      rewrite lookup_insert_is_Some'. auto.
  - intros ch1 fr1 ch2 fr2 ch' H1 H2 Hp1 Hp2.
    destruct (decide (ch = ch1)) as [<-|Hne1];
      destruct (decide (ch = ch2)) as [<-|Hne2]; [done|..].
    + rewrite lookup_insert_eq in H1. rewrite lookup_insert_ne in H2 by done.
      injection H1 as <-. simpl in *. exfalso.
      by eapply (L5 self c ch2 fr2 ch' Hc Hp1).
    + rewrite lookup_insert_eq in H2. rewrite lookup_insert_ne in H1 by done.
      injection H2 as <-. simpl in *. exfalso.
      by eapply (L5 self c ch1 fr1 ch' Hc Hp2).
    + rewrite lookup_insert_ne in H1 by done.
      rewrite lookup_insert_ne in H2 by done. eauto.
  - intros r comp ch0 fr ch' Hr Hp Hfr Hprev.
    destruct (decide (self = r)) as [->|Hner].
    { rewrite lookup_insert_eq in Hr. injection Hr as <-. rewrite Hch in Hp.
      injection Hp as <-. destruct (decide (ch = ch0)) as [->|Hne0].
      - rewrite lookup_insert_eq in Hfr. injection Hfr as <-. simpl in *.
        destruct (L1 _ _ _ Hc Hprev) as (fr' & Hfr' & _). congruence.
      - rewrite lookup_insert_ne in Hfr by done. by eapply Hnoptr. }
    rewrite lookup_insert_ne in Hr by done.
    destruct (decide (ch = ch0)) as [->|Hne0].
    + rewrite lookup_insert_eq in Hfr. injection Hfr as <-. simpl in *.
      destruct (L1 _ _ _ Hr Hp) as (fr1 & Hfr1 & Hs1).
      destruct (L1 _ _ _ Hc Hprev) as (fr2 & Hfr2 & Hs2). congruence.
    + rewrite lookup_insert_ne in Hfr by done. by eapply (L5 r comp ch0 fr ch').
Qed.

(** [answer]: the caller blocked on the channel of [self] wakes up. *)
Lemma linked_pop s self c ch fr c' :
  linked s → heap s !! self = Some c → _channel c = Some ch →
  channels s !! ch = Some (Some fr) → _channel c' = previous_channel fr →
  linked (store self c' (set_channels (<[ch := None]> (channels s)) s)).
Proof.
  intros (L1 & L2 & L3 & L4 & L5) Hc Hp Hfr Hch.
  assert (f_self fr = self) as Hself.
  { destruct (L1 _ _ _ Hc Hp) as (fr' & Hfr' & Hs). congruence. }
  split_and!; simpl.
  - intros r comp ch0 Hr Hp0. destruct (decide (self = r)) as [->|Hne].
    + rewrite lookup_insert_eq in Hr. injection Hr as <-. rewrite Hch in Hp0.
      destruct (L2 _ _ _ Hfr Hp0) as (fr' & Hfr' & Hs').
      assert (ch0 ≠ ch) by (intros ->; by eapply (L5 _ _ ch fr ch Hc Hp)).
      rewrite lookup_insert_ne by done. exists fr'. split; [done|congruence].
    + rewrite lookup_insert_ne in Hr by done.
      destruct (L1 _ _ _ Hr Hp0) as (fr' & Hfr' & Hs').
      assert (ch0 ≠ ch) by (intros ->; congruence).
      rewrite lookup_insert_ne by done. eauto.
  - intros ch0 fr0 ch' Hfr0 Hp0. destruct (decide (ch = ch0)) as [->|Hne].
    + rewrite lookup_insert_eq in Hfr0. discriminate.
    + rewrite lookup_insert_ne in Hfr0 by done.
      destruct (L2 _ _ _ Hfr0 Hp0) as (fr' & Hfr' & Hs').
      assert (ch' ≠ ch) by (intros ->; by eapply (L5 _ _ ch0 fr0 ch Hc Hp)).
      rewrite lookup_insert_ne by done. eauto.
  - intros ch0 fr0 Hfr0. destruct (decide (ch = ch0)) as [->|Hne].
    + rewrite lookup_insert_eq in Hfr0. discriminate.
    + rewrite lookup_insert_ne in Hfr0 by done.
      destruct (L3 _ _ Hfr0) as [Ha Hn]. split; [|done].
      rewrite lookup_insert_is_Some'. auto.
  - intros ch1 fr1 ch2 fr2 ch' H1 H2 Hp1 Hp2.
    destruct (decide (ch = ch1)) as [<-|Hne1].
    { rewrite lookup_insert_eq in H1. discriminate. }
    destruct (decide (ch = ch2)) as [<-|Hne2].
    { rewrite lookup_insert_eq in H2. discriminate. }
    rewrite lookup_insert_ne in H1 by done.
    rewrite lookup_insert_ne in H2 by done. eauto.
  - intros r comp ch0 fr0 ch' Hr Hp0 Hfr0 Hprev.
    destruct (decide (ch = ch0)) as [->|Hne0].
    { rewrite lookup_insert_eq in Hfr0. discriminate. }
    rewrite lookup_insert_ne in Hfr0 by done.
    destruct (decide (self = r)) as [->|Hner].
    + rewrite lookup_insert_eq in Hr. injection Hr as <-. rewrite Hch in Hp0.
      apply Hne0. by eapply (L4 ch fr ch0 fr0 ch').
    + rewrite lookup_insert_ne in Hr by done. by eapply (L5 r comp ch0 fr0 ch').
Qed.

End linked_facts.

Section reachable_facts.

Implicit Types (s : State) (c : Component) (r self : ref) (x : pyobj).

Lemma exec_linked a s s' :
  no_nested s → linked s → exec a s = Some s' → linked s'.
Proof.
  intros Hn Hl H. destruct a as [x m u|self x m u|self f|self x m u|self v];
    simpl in H; apply fmap_Some in H as ([r s1] & H & ->); simpl.
  - unfold Component.__init__ in H.
    destruct (Component.unwrap s x); simplify_eq/=.
    apply linked_new; [done..|]. apply not_elem_of_dom, is_fresh.
  - apply becomes_inv in H as (x' & c & _ & Hc & _ & ->).
    by eapply linked_update.
  - unfold Component.on_answer in H.
    destruct (heap s !! self) as [c|] eqn:Hc; simplify_eq/=.
    by eapply linked_update.
  - apply call_suspend_inv in H as (x' & x'' & c & _ & Hc & _ & -> & ->).
    apply linked_push; eauto using fresh_channel_unused.
  - unfold Component.answer in H.
    destruct (heap s !! self) as [c|] eqn:Hc; simplify_eq/=.
    destruct (_on_answer c); simplify_eq/=; [done|].
    destruct (_channel c) as [ch|] eqn:Hch; simplify_eq/=; [|done].
    destruct Hl as (L1 & L2 & L3 & L4 & L5).
    destruct (L1 _ _ _ Hc Hch) as (fr & Hfr & <-).
    destruct (L3 _ _ Hfr) as [_ Hpo].
    erewrite (channel_send_blocked s ch fr v c) in H by done.
    injection H as _ <-.
    by apply (linked_pop s (f_self fr) c ch fr (restored fr)).
Qed.

Lemma run_linked ops : ∀ s s',
  no_nested s → linked s → run ops s = Some s' → no_nested s' ∧ linked s'.
Proof.
  induction ops as [|a ops IH]; intros s s' Hn Hl H; simpl in H.
  - by simplify_eq.
  - destruct (exec a s) as [s1|] eqn:Ha; simplify_eq/=.
    eapply IH; [| |exact H]; eauto using exec_no_nested, exec_linked.
Qed.

Lemma reachable_linked ops s :
  run ops empty_state = Some s → no_nested s ∧ linked s.
Proof. apply run_linked; [apply no_nested_empty|apply linked_empty]. Qed.

(** In a linked store, an answer that goes to the channel wakes the caller
    of that very component. *)
Lemma answer_wakes_own_caller s self c ch v :
  no_nested s → linked s → heap s !! self = Some c →
  _on_answer c = None → _channel c = Some ch →
  ∃ fr, channels s !! ch = Some (Some fr) ∧ f_self fr = self ∧
        Component.answer s self v
        = Some (Component.CallReturned self v,
                store self (restored fr)
                  (set_channels (<[ch := None]> (channels s)) s)).
Proof.
  intros Hn (L1 & L2 & L3 & L4 & L5) Hc Hl Hch.
  destruct (L1 _ _ _ Hc Hch) as (fr & Hfr & Hself).
  destruct (L3 _ _ Hfr) as [_ Hpo].
  exists fr. split; [done|]. split; [done|].
  unfold Component.answer. rewrite Hc. simpl. rewrite Hl, Hch.
  erewrite (channel_send_blocked s ch fr v c); [|done|by rewrite Hself|done].
  by rewrite Hself.
Qed.

End reachable_facts.

(** ** Calls and answers, composed *)

Section composition_facts.

Implicit Types (s : State) (c : Component) (r self : ref) (x : pyobj).

Lemma answer_blocked s self c ch fr v :
  heap s !! self = Some c → _on_answer c = None → _channel c = Some ch →
  channels s !! ch = Some (Some fr) → f_self fr = self →
  isinstance_Component (previous_o fr) = false →
  Component.answer s self v
  = Some (Component.CallReturned self v,
          store self (restored fr)
            (set_channels (<[ch := None]> (channels s)) s)).
Proof.
  intros Hc Hl Hch Hfr <- Hn. unfold Component.answer.
  rewrite Hc. simpl. rewrite Hl, Hch.
  by erewrite (channel_send_blocked s ch fr v c).
Qed.

(** A call and the answer to it, one after the other. *)
Lemma call_answer_roundtrip s self c x x' m u v :
  heap s !! self = Some c → isinstance_Component (o c) = false →
  Component.unwrap s x = Some x' → isinstance_Component x' = false →
  ∃ ch s1 s2,
    Component.call_suspend s self x m u = Some (ch, s1) ∧
    channels s !! ch = None ∧
    heap s1 !! self
    = Some (mkComponent x' (Some ch) m (url_or u (url c)) None) ∧
    channels s1 !! ch = Some (Some (frame_of self c)) ∧
    (∀ r, r ≠ self → heap s1 !! r = heap s !! r) ∧
    (∀ ch', ch' ≠ ch → channels s1 !! ch' = channels s !! ch') ∧
    Component.answer s1 self v = Some (Component.CallReturned self v, s2) ∧
    heap s2 !! self = Some c ∧
    channels s2 !! ch = Some None ∧
    (∀ r, r ≠ self → heap s2 !! r = heap s !! r) ∧
    (∀ ch', ch' ≠ ch → channels s2 !! ch' = channels s !! ch').
Proof.
  intros Hc Hn Hx Hx'.
  pose proof (call_suspend_intro s self x x' m u c Hx Hx' Hc) as Hcall.
  set (ch := fresh (dom (channels s))) in *.
  eexists ch, _, _. split; [exact Hcall|].
  split; [apply fresh_channel_unused|].
  split; [simpl; apply lookup_insert_eq|].
  split; [simpl; apply lookup_insert_eq|].
  split; [intros r Hr; simpl; by rewrite lookup_insert_ne|].
  split; [intros ch' Hne; simpl; by rewrite lookup_insert_ne|].
  split.
  { apply (answer_blocked _ self
             (mkComponent x' (Some ch) m (url_or u (url c)) None)
             ch (frame_of self c) v); simpl;
      rewrite ?lookup_insert_eq; done. }
  rewrite restored_frame_of. simpl.
  split; [apply lookup_insert_eq|]. split; [apply lookup_insert_eq|].
  split.
  - intros r Hr. by rewrite !lookup_insert_ne.
  - intros ch' Hne. by rewrite !lookup_insert_ne.
Qed.

End composition_facts.

(** X1 — Suspended callers form stacks.  In every store a program over
    the interface reaches from the empty store, the channel of a component
    has a caller of that same component blocked on it, the channel that
    caller saved has the next caller of that component blocked on it, every
    blocked caller belongs to a live component and saved a payload that is
    not a component, and no channel is pointed at twice ([linked]). *)
Theorem reachable_stores_are_linked (ops : list op) (s : State) :
  run ops empty_state = Some s → linked s.
Proof. intros H. by destruct (reachable_linked ops s H). Qed.

Lemma reachable_stores_are_linked_witness : linked scenario_two_callers.
Proof.
  apply (reachable_stores_are_linked two_callers scenario_two_callers).
  vm_compute. reflexivity.
Defined.

(** X2 — Answers in a reachable store.  In every store a program over
    the interface reaches from the empty store, [c.answer(v)] on a live
    component that has no listener never finds a channel nobody reads: it
    raises [AnswerWithoutCall] and changes nothing when [c] has no
    channel, and otherwise it wakes the caller of [c] itself that is
    blocked on the channel of [c], which receives [v] and gives [c] back the
    attributes it saved. *)
Theorem answer_in_reachable_store (ops : list op) (s : State) (c : ref)
    (comp : Component) (v : pyobj) :
  run ops empty_state = Some s →
  heap s !! c = Some comp →
  _on_answer comp = None →
  (_channel comp = None →
   Component.answer s c v = Some (Component.RaisedAnswerWithoutCall, s)) ∧
  (∀ ch, _channel comp = Some ch →
     ∃ fr, channels s !! ch = Some (Some fr) ∧ f_self fr = c ∧
           Component.answer s c v
           = Some (Component.CallReturned c v,
                   store c (restored fr)
                     (set_channels (<[ch := None]> (channels s)) s))) ∧
  (∃ a s',
     Component.answer s c v = Some (a, s') ∧
     (∀ ch, a ≠ Component.SenderBlocked ch) ∧
     (∀ caller v', a = Component.CallReturned caller v' →
                   caller = c ∧ v' = v)).
Proof.
  intros [Hn Hl]%reachable_linked Hc Hf.
  assert (_channel comp = None →
          Component.answer s c v
          = Some (Component.RaisedAnswerWithoutCall, s)) as Hnone.
  { intros Hch. unfold Component.answer. rewrite Hc. simpl.
    by rewrite Hf, Hch. }
  split; [done|]. split.
  - intros ch Hch. by apply (answer_wakes_own_caller s c comp ch v).
  - destruct (_channel comp) as [ch|] eqn:Hch.
    + destruct (answer_wakes_own_caller s c comp ch v Hn Hl Hc Hf Hch)
        as (fr & _ & _ & ->).
      eexists _, _. split_and!; [done|done|].
      by intros caller v' [= <- <-].
    + rewrite Hnone by done. eexists _, _. split_and!; done.
Qed.

Lemma answer_in_reachable_store_witness :
  ∃ fr, channels scenario_two_callers !! 1 = Some (Some fr) ∧ f_self fr = 1 ∧
        Component.answer scenario_two_callers 1 (PStr "ok")
        = Some (Component.CallReturned 1 (PStr "ok"),
                store 1 (restored fr)
                  (set_channels (<[1 := None]> (channels scenario_two_callers))
                     scenario_two_callers)).
Proof.
  pose proof (answer_in_reachable_store two_callers scenario_two_callers 1
                (mkComponent (PObj 3) (Some 1) (VInt 0) (Some "b") None)
                (PStr "ok") ltac:(vm_compute; reflexivity)
                ltac:(vm_compute; reflexivity) eq_refl) as (_ & Hwake & _).
  exact (Hwake 1 eq_refl).
Defined.

(** X3 — Operations are local.  In a reachable store, the creation of a
    component and an operation on a component, other than an answer taken
    by a listener of that component, change no other component and wake
    or disturb no caller blocked in a call of another component. *)
Theorem operations_are_local (ops : list op) (s s' : State) (a : op) :
  run ops empty_state = Some s →
  (∀ c v comp, a = OpAnswer c v → heap s !! c = Some comp →
               _on_answer comp = None) →
  exec a s = Some s' →
  (∀ r comp, heap s !! r = Some comp → target a ≠ Some r →
             heap s' !! r = Some comp) ∧
  (∀ ch fr, channels s !! ch = Some (Some fr) → target a ≠ Some (f_self fr) →
            channels s' !! ch = Some (Some fr)).
Proof.
  intros [Hn Hl]%reachable_linked Hquiet H.
  destruct a as [x m u|self x m u|self f|self x m u|self v];
    simpl in H; apply fmap_Some in H as ([r0 s1] & H & ->); simpl.
  - unfold Component.__init__ in H.
    destruct (Component.unwrap s x); simplify_eq/=. split; [|done].
    intros r comp Hr _. rewrite lookup_insert_ne; [done|].
    intros <-. apply (is_fresh (dom (heap s))). by apply elem_of_dom.
  - apply becomes_inv in H as (x' & c & _ & Hc & _ & ->). split; [|done].
    intros r comp Hr Hne. rewrite heap_store_ne; [done|congruence].
  - unfold Component.on_answer in H.
    destruct (heap s !! self) as [c|] eqn:Hc; simplify_eq/=. split; [|done].
    intros r comp Hr Hne. rewrite lookup_insert_ne; [done|congruence].
  - apply call_suspend_inv in H as (x' & x'' & c & _ & Hc & _ & -> & ->).
    split.
    + intros r comp Hr Hne. simpl. rewrite lookup_insert_ne; [done|congruence].
    + intros ch fr Hfr _. simpl. rewrite lookup_insert_ne; [done|].
      intros <-. pose proof (fresh_channel_unused s). congruence.
  - unfold Component.answer in H.
    destruct (heap s !! self) as [c|] eqn:Hc; simplify_eq/=.
    pose proof (Hquiet self v c eq_refl Hc) as Hf. rewrite Hf in H.
    destruct (_channel c) as [ch|] eqn:Hch; simplify_eq/=; [|done].
    destruct (answer_wakes_own_caller s self c ch v Hn Hl Hc Hf Hch)
      as (fr & Hfr & Hself & Ha).
    unfold Component.answer in Ha. rewrite Hc in Ha. simpl in Ha.
    rewrite Hf, Hch in Ha. rewrite Ha in H. injection H as _ <-. split.
    + intros r comp Hr Hne. rewrite heap_store_ne; [done|congruence].
    + intros ch0 fr0 Hfr0 Hne. simpl. rewrite lookup_insert_ne; [done|].
      intros <-. congruence.
Qed.

Lemma operations_are_local_witness :
  ∃ s',
    exec (OpAnswer 0 (PStr "outer")) scenario_two_callers = Some s' ∧
    (_channel <$> heap s' !! 0, _channel <$> heap s' !! 1)
    = (Some None, Some (Some 1)) ∧
    (∀ r comp, heap scenario_two_callers !! r = Some comp →
               target (OpAnswer 0 (PStr "outer")) ≠ Some r →
               heap s' !! r = Some comp) ∧
    (∀ ch fr, channels scenario_two_callers !! ch = Some (Some fr) →
              target (OpAnswer 0 (PStr "outer")) ≠ Some (f_self fr) →
              channels s' !! ch = Some (Some fr)).
Proof.
  eexists. split; [vm_compute; reflexivity|]. split; [vm_compute; reflexivity|].
  apply (operations_are_local two_callers scenario_two_callers _
           (OpAnswer 0 (PStr "outer"))).
  - vm_compute. reflexivity.
  - intros c v comp [= <- <-] Hc. vm_compute in Hc. by injection Hc as <-.
  - vm_compute. reflexivity.
Defined.

(** X4 — Nested calls return in reverse order.  Two calls issued one
    inside the other on the same component block on two different
    channels; the first answer returns from the inner call and gives the
    component the attributes it had during the outer call, the outer caller
    still waiting; the second answer returns from the outer call and gives
    the component its original attributes. *)
Theorem nested_calls_answered_in_reverse (s : State) (c : ref)
    (c0 : Component) (x1 x2 : pyobj) (m1 m2 : view) (u1 u2 : option string)
    (v1 v2 : pyobj) :
  heap s !! c = Some c0 →
  isinstance_Component (o c0) = false →
  isinstance_Component x1 = false →
  isinstance_Component x2 = false →
  ∃ ch1 s1 c1 ch2 s2 s3 s4,
    Component.call_suspend s c x1 m1 u1 = Some (ch1, s1) ∧
    heap s1 !! c = Some c1 ∧
    Component.call_suspend s1 c x2 m2 u2 = Some (ch2, s2) ∧
    ch1 ≠ ch2 ∧
    Component.answer s2 c v2 = Some (Component.CallReturned c v2, s3) ∧
    heap s3 !! c = Some c1 ∧
    channels s3 !! ch1 = Some (Some (frame_of c c0)) ∧
    Component.answer s3 c v1 = Some (Component.CallReturned c v1, s4) ∧
    heap s4 !! c = Some c0.
Proof.
  intros Hc Hn Hx1 Hx2.
  destruct (call_answer_roundtrip s c c0 x1 x1 m1 u1 v1 Hc Hn
              (unwrap_other s x1 Hx1) Hx1)
    as (ch1 & s1 & _ & Hcall1 & _ & Hc1 & Hfr1 & _ & _ & _).
  destruct (call_answer_roundtrip s1 c _ x2 x2 m2 u2 v2 Hc1 Hx1
              (unwrap_other s1 x2 Hx2) Hx2)
    as (ch2 & s2 & s3 & Hcall2 & Hfresh2 & _ & _ & _ & _ & Ha2 & Hc3 & _ & _
        & Hch3).
  assert (ch1 ≠ ch2) as Hne by (intros ->; congruence).
  assert (channels s3 !! ch1 = Some (Some (frame_of c c0))) as Hfr3
    by (by rewrite Hch3).
  eexists ch1, s1, _, ch2, s2, s3, _.
  split_and!; [done|done|done|done|done|done|done| |].
  - by apply (answer_blocked s3 c
                (mkComponent x1 (Some ch1) m1 (url_or u1 (url c0)) None)
                ch1 (frame_of c c0) v1).
  - rewrite restored_frame_of. apply heap_store_eq.
Qed.

Lemma nested_calls_answered_in_reverse_witness :
  ∃ ch1 s1 c1 ch2 s2 s3 s4,
    Component.call_suspend scenario_wrapped 0 FormB (VInt 1) None
    = Some (ch1, s1) ∧
    heap s1 !! 0 = Some c1 ∧
    Component.call_suspend s1 0 (PObj 3) VNone (Some "x") = Some (ch2, s2) ∧
    ch1 ≠ ch2 ∧
    Component.answer s2 0 (PStr "inner")
    = Some (Component.CallReturned 0 (PStr "inner"), s3) ∧
    heap s3 !! 0 = Some c1 ∧
    channels s3 !! ch1
    = Some (Some (frame_of 0 (mkComponent FormA None (VInt 0) (Some "a") None))) ∧
    Component.answer s3 0 (PStr "outer")
    = Some (Component.CallReturned 0 (PStr "outer"), s4) ∧
    heap s4 !! 0 = Some (mkComponent FormA None (VInt 0) (Some "a") None).
Proof.
  apply (nested_calls_answered_in_reverse scenario_wrapped 0
           (mkComponent FormA None (VInt 0) (Some "a") None)
           FormB (PObj 3) (VInt 1) VNone None (Some "x")
           (PStr "outer") (PStr "inner")); vm_compute; reflexivity.
Defined.

(** X5 — Single delivery.  On a component that is neither called nor
    listened to, a call followed by its answer leaves nothing to answer:
    every further [answer] raises [AnswerWithoutCall] and changes
    nothing. *)
Theorem second_answer_raises (s : State) (c : ref) (c0 : Component)
    (x x' : pyobj) (m : view) (u : option string) (v : pyobj) :
  heap s !! c = Some c0 →
  _channel c0 = None → _on_answer c0 = None →
  isinstance_Component (o c0) = false →
  Component.unwrap s x = Some x' → isinstance_Component x' = false →
  ∃ ch s1 s2,
    Component.call_suspend s c x m u = Some (ch, s1) ∧
    Component.answer s1 c v = Some (Component.CallReturned c v, s2) ∧
    ∀ v', Component.answer s2 c v'
          = Some (Component.RaisedAnswerWithoutCall, s2).
Proof.
  intros Hc Hch Hl Hn Hx Hx'.
  destruct (call_answer_roundtrip s c c0 x x' m u v Hc Hn Hx Hx')
    as (ch & s1 & s2 & Hcall & _ & _ & _ & _ & _ & Ha & Hc2 & _).
  exists ch, s1, s2. split; [done|]. split; [done|].
  intros v'. unfold Component.answer. rewrite Hc2. simpl. by rewrite Hl, Hch.
Qed.

Lemma second_answer_raises_witness :
  ∃ ch s1 s2,
    Component.call_suspend scenario_wrapped 0 (PComponent 0) (VInt 1) None
    = Some (ch, s1) ∧
    Component.answer s1 0 (PStr "ok")
    = Some (Component.CallReturned 0 (PStr "ok"), s2) ∧
    ∀ v', Component.answer s2 0 v'
          = Some (Component.RaisedAnswerWithoutCall, s2).
Proof.
  apply (second_answer_raises scenario_wrapped 0
           (mkComponent FormA None (VInt 0) (Some "a") None)
           (PComponent 0) FormA (VInt 1) None (PStr "ok"));
    vm_compute; reflexivity.
Defined.

(** X7 — A component argument is copied, not shared.  [Component(d)] and
    [c.becomes(d)] take the payload [d] has at that moment and leave [d] as
    it is; replacing the payload of [d] afterwards changes neither [c] nor
    the new component.  [c.becomes(c)] keeps the payload of [c]. *)
Theorem component_argument_is_copied (s : State) (c d : ref)
    (cc cd : Component) (y : pyobj) (m m' : view) (u u' : option string) :
  c ≠ d →
  heap s !! c = Some cc → heap s !! d = Some cd →
  isinstance_Component y = false →
  (∃ n s1 s2,
     Component.__init__ s (PComponent d) m u = Some (n, s1) ∧
     n ≠ d ∧ heap s1 !! d = Some cd ∧
     Component.becomes s1 d y m' u' = Some (d, s2) ∧
     o <$> heap s2 !! n = Some (o cd) ∧ o <$> heap s2 !! d = Some y) ∧
  (∃ s1 s2,
     Component.becomes s c (PComponent d) m u = Some (c, s1) ∧
     heap s1 !! d = Some cd ∧
     Component.becomes s1 d y m' u' = Some (d, s2) ∧
     o <$> heap s2 !! c = Some (o cd) ∧ o <$> heap s2 !! d = Some y) ∧
  (∃ s1,
     Component.becomes s c (PComponent c) m u = Some (c, s1) ∧
     o <$> heap s1 !! c = Some (o cc) ∧ model <$> heap s1 !! c = Some m).
Proof.
  intros Hne Hc Hd Hy.
  pose proof (unwrap_component s d cd Hd) as Hxd.
  pose proof (unwrap_component s c cc Hc) as Hxc.
  split_and!.
  - assert (fresh (dom (heap s)) ≠ d) as Hn.
    { intros Heq. apply (is_fresh (dom (heap s))). rewrite Heq.
      by apply elem_of_dom. }
    unfold Component.__init__. rewrite Hxd. simpl.
    eexists _, _, _. split; [done|]. split; [done|].
    split; [by rewrite heap_store_ne|].
    erewrite becomes_intro;
      [|by apply unwrap_other|by rewrite heap_store_ne].
    split; [done|]. rewrite heap_store_ne by done. rewrite !heap_store_eq.
    done.
  - erewrite becomes_intro by done.
    eexists _, _. split; [done|]. split; [by rewrite heap_store_ne|].
    erewrite becomes_intro;
      [|by apply unwrap_other|by rewrite heap_store_ne].
    split; [done|]. rewrite heap_store_ne by done. rewrite !heap_store_eq.
    done.
  - erewrite becomes_intro by done.
    eexists. split; [done|]. by rewrite heap_store_eq.
Qed.

Lemma component_argument_is_copied_witness :
  (∃ n s1 s2,
     Component.__init__ scenario_two_callers (PComponent 1) VNone None
     = Some (n, s1) ∧
     n ≠ 1 ∧
     heap s1 !! 1
     = Some (mkComponent (PObj 3) (Some 1) (VInt 0) (Some "b") None) ∧
     Component.becomes s1 1 FormA (VInt 0) None = Some (1, s2) ∧
     o <$> heap s2 !! n = Some (PObj 3) ∧ o <$> heap s2 !! 1 = Some FormA) ∧
  (∃ s1 s2,
     Component.becomes scenario_two_callers 0 (PComponent 1) VNone None
     = Some (0, s1) ∧
     heap s1 !! 1
     = Some (mkComponent (PObj 3) (Some 1) (VInt 0) (Some "b") None) ∧
     Component.becomes s1 1 FormA (VInt 0) None = Some (1, s2) ∧
     o <$> heap s2 !! 0 = Some (PObj 3) ∧ o <$> heap s2 !! 1 = Some FormA) ∧
  (∃ s1,
     Component.becomes scenario_two_callers 0 (PComponent 0) VNone None
     = Some (0, s1) ∧
     o <$> heap s1 !! 0 = Some (PObj 3) ∧ model <$> heap s1 !! 0 = Some VNone).
Proof.
  apply (component_argument_is_copied scenario_two_callers 0 1
           (mkComponent (PObj 3) (Some 0) (VStr "edit") None None)
           (mkComponent (PObj 3) (Some 1) (VInt 0) (Some "b") None)
           FormA VNone (VInt 0) None None);
    [discriminate|vm_compute; reflexivity..].
Defined.

(** X8 — What a pending call looks like.  In a store without nested
    payloads, [c.call(x, m, u)] always reaches its suspension: the caller
    blocks on a channel that did not exist, keeping the previous attributes
    of [c]; meanwhile [c] holds the payload of the callee (never a
    component), the view [m], the url [u] or, when [u] is [None] or empty,
    the url of the caller, no listener, and the new channel; no other
    component or channel changes. *)
Theorem call_installs_callee (s : State) (c : ref) (comp : Component)
    (x x' : pyobj) (m : view) (u : option string) :
  no_nested s →
  heap s !! c = Some comp →
  Component.unwrap s x = Some x' →
  ∃ ch s1 callee,
    Component.call_suspend s c x m u = Some (ch, s1) ∧
    channels s !! ch = None ∧
    channels s1 !! ch = Some (Some (frame_of c comp)) ∧
    heap s1 !! c = Some callee ∧
    o callee = x' ∧ isinstance_Component x' = false ∧
    model callee = m ∧ _on_answer callee = None ∧ _channel callee = Some ch ∧
    (u = None ∨ u = Some "" → url callee = url comp) ∧
    (∀ u0, u = Some u0 → u0 ≠ "" → url callee = Some u0) ∧
    (∀ r, r ≠ c → heap s1 !! r = heap s !! r) ∧
    (∀ ch', ch' ≠ ch → channels s1 !! ch' = channels s !! ch').
Proof.
  intros Hs Hc Hx.
  assert (isinstance_Component x' = false) as Hx'
    by eauto using unwrap_not_component.
  assert (isinstance_Component (o comp) = false) as Hn by eauto.
  destruct (call_answer_roundtrip s c comp x x' m u PNone Hc Hn Hx Hx')
    as (ch & s1 & _ & Hcall & Hfresh & Hc1 & Hfr & Hheap & Hchs & _).
  eexists ch, s1, _. split_and!; try done.
  - by intros [->| ->].
  - intros u0 -> Hne. simpl. by apply String.eqb_neq in Hne as ->.
Qed.

Lemma call_installs_callee_witness :
  ∃ ch s1 callee,
    Component.call_suspend scenario_wrapped 0 (PComponent 0) VNone (Some "")
    = Some (ch, s1) ∧
    channels scenario_wrapped !! ch = None ∧
    channels s1 !! ch
    = Some (Some (frame_of 0 (mkComponent FormA None (VInt 0) (Some "a") None))) ∧
    heap s1 !! 0 = Some callee ∧
    o callee = FormA ∧ isinstance_Component FormA = false ∧
    model callee = VNone ∧ _on_answer callee = None ∧
    _channel callee = Some ch ∧
    (Some "" = None ∨ Some "" = Some "" → url callee = Some "a") ∧
    (∀ u0, Some "" = Some u0 → u0 ≠ "" → url callee = Some u0) ∧
    (∀ r, r ≠ 0 → heap s1 !! r = heap scenario_wrapped !! r) ∧
    (∀ ch', ch' ≠ ch → channels s1 !! ch' = channels scenario_wrapped !! ch').
Proof.
  apply (call_installs_callee scenario_wrapped 0
           (mkComponent FormA None (VInt 0) (Some "a") None)
           (PComponent 0) FormA VNone (Some "")).
  - apply (init_no_nested empty_state FormA (VInt 0) (Some "a") 0
             scenario_wrapped no_nested_empty).
    vm_compute. reflexivity.
  - vm_compute. reflexivity.
  - vm_compute. reflexivity.
Defined.

(** ** The task driver, continued *)

Section driver_exit.

Variable go : ref → State → go_result * State.

Lemma forever_app k : ∀ n comp s calls,
  Task.forever go (k + n) comp s calls
  = match Task.forever go k comp s calls with
    | (StillLooping, s', calls') => Task.forever go n comp s' calls'
    | res => res
    end.
Proof.
  induction k as [|k IH]; intros n comp s calls; simpl; [done|].
  destruct (go comp s) as [[v|e] s1]; [apply IH|done].
Qed.

End driver_exit.

(** X9 — The only way out of the root loop.  For a component with no
    channel, if [go] has returned [k] times and raises at its next
    invocation, then [_go] ends there: it lets that exception through,
    having invoked [go] exactly [k + 1] times, in the store [go] left, and
    nothing is answered. *)
Theorem root_loop_left_by_exception (go : ref → State → go_result * State)
    (s sk s' : State) (c : ref) (comp : Component) (k fuel : nat) (e : exn) :
  heap s !! c = Some comp →
  _channel comp = None →
  Task.forever go k c s 0 = (StillLooping, sk, k) →
  go c sk = (GoRaises e, s') →
  k < fuel →
  Task._go go fuel c s = Some (Propagated e, s', S k).
Proof.
  intros Hc Hch Hk Hgo Hlt. unfold Task._go. rewrite Hc. simpl. rewrite Hch.
  replace fuel with (k + S (fuel - S k)) by lia.
  rewrite forever_app, Hk. simpl. by rewrite Hgo.
Qed.

Lemma root_loop_left_by_exception_witness :
  Task._go counting_go 5 0 (counter 0)
  = Some (Propagated "StopIteration", counter 2, 3).
Proof.
  apply (root_loop_left_by_exception counting_go (counter 0) (counter 2)
           (counter 2) 0 (mkComponent (PInt 0) None (VInt 0) None None) 2 5
           "StopIteration"); [vm_compute; reflexivity..|lia].
Defined.

(** * Further properties of the security helpers *)

Section security_more.

Import security.

(** X10 — Setting and reading the security context.  After
    [set_user(u)], [get_user()] returns [u] unless [u] is expired, and
    [None] then; the manager is unchanged.  After [set_manager(m)],
    [get_manager()] returns [m], and [get_user()] returns what it returned
    before.  None of them calls the manager. *)
Theorem security_context_roundtrip (rq : Request) (tr : list event) :
  (∀ usr, expired usr = false →
     ∃ rq', set_user (Some usr) rq tr = (inl tt, rq', tr) ∧
            get_user rq' tr = (inl (Some usr), rq', tr) ∧
            (get_manager rq' tr).1.1 = (get_manager rq tr).1.1) ∧
  (∀ usr, expired usr = true →
     ∃ rq', set_user (Some usr) rq tr = (inl tt, rq', tr) ∧
            get_user rq' tr = (inl None, rq', tr) ∧
            _get_user rq' tr = (inl (Some usr), rq', tr)) ∧
  (∃ rq', set_user None rq tr = (inl tt, rq', tr) ∧
          get_user rq' tr = (inl None, rq', tr)) ∧
  (∀ manager,
     ∃ rq', set_manager manager rq tr = (inl tt, rq', tr) ∧
            get_manager rq' tr = (inl manager, rq', tr) ∧
            (get_user rq' tr).1.1 = (get_user rq tr).1.1).
Proof.
  split_and!.
  - intros usr He. eexists. split; [done|]. rewrite get_user_eq. simpl.
    by rewrite He.
  - intros usr He. eexists. split; [done|]. rewrite get_user_eq. simpl.
    by rewrite He.
  - eexists. split; [done|]. by rewrite get_user_eq.
  - intros manager. eexists. split; [done|]. split; [done|].
    by rewrite !get_user_eq.
Qed.

(** X11 — What [check_permissions] returns.  When the manager grants,
    the credential is returned and [denies] is not called.  When it does
    not and [denies] returns, the result is the empty string if the
    credential was [False] and the credential itself otherwise; when
    [denies] raises, so does [check_permissions].  In every case
    [has_permission] is called once, first, with the visible user, and the
    request is left as it was. *)
Theorem check_permissions_outcome (perm subject : pyobj) (rq : Request)
    (tr : list event) (u : option User) (credential : pyobj) :
  get_user rq tr = (inl u, rq, tr) →
  credential = has_permission (security_manager rq) u perm subject →
  (truthy credential = true →
   check_permissions perm subject rq tr
   = (inl credential, rq, tr ++ [EHasPermission u perm subject])) ∧
  (credential = PBool false →
   denies (security_manager rq) (PStr "") = None →
   check_permissions perm subject rq tr
   = (inl (PStr ""), rq,
      tr ++ [EHasPermission u perm subject; EDenies (PStr "")])) ∧
  (truthy credential = false → credential ≠ PBool false →
   denies (security_manager rq) credential = None →
   check_permissions perm subject rq tr
   = (inl credential, rq,
      tr ++ [EHasPermission u perm subject; EDenies credential])) ∧
  (truthy credential = false →
   ∀ e, denies (security_manager rq)
          (if is_False credential then PStr "" else credential) = Some e →
        check_permissions perm subject rq tr
        = (inr e, rq,
           tr ++ [EHasPermission u perm subject;
                  EDenies (if is_False credential then PStr ""
                           else credential)])).
Proof.
  intros Hu ->. rewrite (check_permissions_eq _ _ _ _ u Hu). simpl.
  split_and!.
  - by intros ->.
  - intros -> Hd. simpl. rewrite Hd. by rewrite <- app_assoc.
  - intros Ht Hne Hd. rewrite Ht.
    assert (is_False (has_permission (security_manager rq) u perm subject)
            = false) as ->.
    { destruct (has_permission _ _ _ _) as [|[]| | | | | |]; done. }
    rewrite Hd. by rewrite <- app_assoc.
  - intros Ht e Hd. rewrite Ht, Hd. by rewrite <- app_assoc.
Qed.

Lemma check_permissions_outcome_witness :
  (truthy (PBool false) = true →
   check_permissions (PStr "edit") FormA
     (mkRequest (Some bob) sample_manager) []
   = (inl (PBool false), mkRequest (Some bob) sample_manager,
      [] ++ [EHasPermission None (PStr "edit") FormA])) ∧
  (PBool false = PBool false →
   denies sample_manager (PStr "") = None →
   check_permissions (PStr "edit") FormA
     (mkRequest (Some bob) sample_manager) []
   = (inl (PStr ""), mkRequest (Some bob) sample_manager,
      [] ++ [EHasPermission None (PStr "edit") FormA; EDenies (PStr "")])) ∧
  (truthy (PBool false) = false → PBool false ≠ PBool false →
   denies sample_manager (PBool false) = None →
   check_permissions (PStr "edit") FormA
     (mkRequest (Some bob) sample_manager) []
   = (inl (PBool false), mkRequest (Some bob) sample_manager,
      [] ++ [EHasPermission None (PStr "edit") FormA;
             EDenies (PBool false)])) ∧
  (truthy (PBool false) = false →
   ∀ e, denies sample_manager
          (if is_False (PBool false) then PStr "" else PBool false) = Some e →
        check_permissions (PStr "edit") FormA
          (mkRequest (Some bob) sample_manager) []
        = (inr e, mkRequest (Some bob) sample_manager,
           [] ++ [EHasPermission None (PStr "edit") FormA;
                  EDenies (if is_False (PBool false) then PStr ""
                           else PBool false)])).
Proof.
  apply (check_permissions_outcome (PStr "edit") FormA
           (mkRequest (Some bob) sample_manager) [] None (PBool false));
    reflexivity.
Defined.

End security_more.

Section security_methods.

Import security.

Lemma call_with_permissions_eq (self : pyobj) (action : Action)
    (perm subject : pyobj) (args : list pyobj) (rq : Request)
    (tr : list event) :
  call_with_permissions self action perm subject args rq tr
  = match check_permissions perm (py_or subject self) rq tr with
    | (inl _, rq', tr') =>
        action (if truthy self then self :: args else args) rq' tr'
    | (inr e, rq', tr') => (inr e, rq', tr')
    end.
Proof.
  unfold call_with_permissions, mbind, M_bind.
  destruct (check_permissions _ _ _ _) as [[[?|?] ?] ?]; [|done].
  by destruct (truthy self).
Qed.

(** X12 — Permissions on a method call.  [call_with_permissions] with
    [self], an action, a permission, a subject and arguments checks the
    permission on [subject], or on [self] when [subject] is false as a truth
    value.  Unless [denies] raised, it then calls the action on [self]
    followed by the arguments when [self] is true as a truth value and on
    the arguments alone otherwise, so a [self] that is false is not passed
    on; the result is the action's. *)
Theorem call_with_permissions_on_method (self : pyobj) (action : Action)
    (perm subject : pyobj) (args : list pyobj) (rq : Request)
    (tr : list event) (u : option User) (credential : pyobj) :
  get_user rq tr = (inl u, rq, tr) →
  credential
  = has_permission (security_manager rq) u perm (py_or subject self) →
  (truthy subject = true → py_or subject self = subject) ∧
  (truthy subject = false → py_or subject self = self) ∧
  (truthy credential = true →
   (truthy self = true →
    call_with_permissions self action perm subject args rq tr
    = action (self :: args) rq
        (tr ++ [EHasPermission u perm (py_or subject self)])) ∧
   (truthy self = false →
    call_with_permissions self action perm subject args rq tr
    = action args rq (tr ++ [EHasPermission u perm (py_or subject self)]))) ∧
  (truthy credential = false →
   ∀ denied, denied = (if is_False credential then PStr "" else credential) →
     (∀ e, denies (security_manager rq) denied = Some e →
           call_with_permissions self action perm subject args rq tr
           = (inr e, rq,
              tr ++ [EHasPermission u perm (py_or subject self);
                     EDenies denied])) ∧
     (denies (security_manager rq) denied = None →
      call_with_permissions self action perm subject args rq tr
      = action (if truthy self then self :: args else args) rq
          (tr ++ [EHasPermission u perm (py_or subject self);
                  EDenies denied]))).
Proof.
  intros Hu ->. rewrite call_with_permissions_eq.
  rewrite (check_permissions_eq _ _ _ _ u Hu). simpl.
  split_and!.
  - unfold py_or. by intros ->.
  - unfold py_or. by intros ->.
  - intros ->. split; by intros ->.
  - intros -> denied ->. rewrite <- !app_assoc. simpl.
    split; [by intros e ->|by intros ->].
Qed.

Lemma call_with_permissions_on_method_witness :
  (truthy PNone = true → py_or PNone FormA = PNone) ∧
  (truthy PNone = false → py_or PNone FormA = FormA) ∧
  (truthy (PBool true) = true →
   (truthy FormA = true →
    call_with_permissions FormA sample_action (PStr "edit") PNone [PStr "x"]
      (mkRequest (Some alice) sample_manager) []
    = sample_action (FormA :: [PStr "x"])
        (mkRequest (Some alice) sample_manager)
        ([] ++ [EHasPermission (Some alice) (PStr "edit") (py_or PNone FormA)])) ∧
   (truthy FormA = false →
    call_with_permissions FormA sample_action (PStr "edit") PNone [PStr "x"]
      (mkRequest (Some alice) sample_manager) []
    = sample_action [PStr "x"] (mkRequest (Some alice) sample_manager)
        ([] ++ [EHasPermission (Some alice) (PStr "edit")
                  (py_or PNone FormA)]))) ∧
  (truthy (PBool true) = false →
   ∀ denied, denied = (if is_False (PBool true) then PStr "" else PBool true) →
     (∀ e, denies sample_manager denied = Some e →
           call_with_permissions FormA sample_action (PStr "edit") PNone
             [PStr "x"] (mkRequest (Some alice) sample_manager) []
           = (inr e, mkRequest (Some alice) sample_manager,
              [] ++ [EHasPermission (Some alice) (PStr "edit")
                       (py_or PNone FormA);
                     EDenies denied])) ∧
     (denies sample_manager denied = None →
      call_with_permissions FormA sample_action (PStr "edit") PNone
        [PStr "x"] (mkRequest (Some alice) sample_manager) []
      = sample_action (if truthy FormA then FormA :: [PStr "x"]
                       else [PStr "x"])
          (mkRequest (Some alice) sample_manager)
          ([] ++ [EHasPermission (Some alice) (PStr "edit")
                    (py_or PNone FormA);
                  EDenies denied]))).
Proof.
  apply (call_with_permissions_on_method FormA sample_action (PStr "edit")
           PNone [PStr "x"] (mkRequest (Some alice) sample_manager) []
           (Some alice) (PBool true)); reflexivity.
Defined.

(** X13 — Wrappers nest outside in.  Wrapping a wrapped action checks the
    outer permission first.  When both are granted the action runs after
    exactly the two checks, outer then inner, and neither [denies] is
    called; when the outer one is refused and [denies] raises, the inner
    permission is never asked about and the action does not run. *)
Theorem nested_wrappers_check_outside_in (action : Action)
    (p1 p2 subject1 subject2 : pyobj) (args : list pyobj) (rq : Request)
    (tr : list event) (u : option User) (c1 c2 : pyobj) :
  p1 ≠ PNone → p2 ≠ PNone →
  (∀ tr', get_user rq tr' = (inl u, rq, tr')) →
  c1 = has_permission (security_manager rq) u p1 (py_or subject1 PNone) →
  c2 = has_permission (security_manager rq) u p2 (py_or subject2 PNone) →
  (truthy c1 = true → truthy c2 = true →
   wrapper (wrapper action p1 subject1) p2 subject2 args rq tr
   = action args rq
       (tr ++ [EHasPermission u p2 (py_or subject2 PNone);
               EHasPermission u p1 (py_or subject1 PNone)])) ∧
  (truthy c2 = false →
   ∀ e, denies (security_manager rq)
          (if is_False c2 then PStr "" else c2) = Some e →
        wrapper (wrapper action p1 subject1) p2 subject2 args rq tr
        = (inr e, rq,
           tr ++ [EHasPermission u p2 (py_or subject2 PNone);
                  EDenies (if is_False c2 then PStr "" else c2)])).
Proof.
  intros Hp1 Hp2 Hu -> ->.
  assert (∀ act p sub, p ≠ PNone →
            wrapper act p sub args rq
            = call_with_permissions PNone act p sub args rq) as Hw
    by (intros act p sub Hp; by destruct p).
  split.
  - intros Ht1 Ht2. rewrite Hw by done. rewrite call_with_permissions_eq.
    rewrite (check_permissions_eq _ _ _ _ u (Hu _)). simpl. rewrite Ht2.
    simpl. rewrite Hw by done. rewrite call_with_permissions_eq.
    rewrite (check_permissions_eq _ _ _ _ u (Hu _)). simpl. rewrite Ht1.
    simpl. by rewrite <- app_assoc.
  - intros Ht2 e Hd. rewrite Hw by done. rewrite call_with_permissions_eq.
    rewrite (check_permissions_eq _ _ _ _ u (Hu _)). simpl.
    rewrite Ht2, Hd. by rewrite <- app_assoc.
Qed.

Lemma nested_wrappers_check_outside_in_witness :
  (truthy (PBool true) = true → truthy (PBool true) = true →
   wrapper (wrapper sample_action (PStr "read") FormA) (PStr "edit") FormB
     [PStr "x"] (mkRequest (Some alice) sample_manager) []
   = sample_action [PStr "x"] (mkRequest (Some alice) sample_manager)
       ([] ++ [EHasPermission (Some alice) (PStr "edit") (py_or FormB PNone);
               EHasPermission (Some alice) (PStr "read") (py_or FormA PNone)])) ∧
  (truthy (PBool true) = false →
   ∀ e, denies sample_manager
          (if is_False (PBool true) then PStr "" else PBool true) = Some e →
        wrapper (wrapper sample_action (PStr "read") FormA) (PStr "edit") FormB
          [PStr "x"] (mkRequest (Some alice) sample_manager) []
        = (inr e, mkRequest (Some alice) sample_manager,
           [] ++ [EHasPermission (Some alice) (PStr "edit") (py_or FormB PNone);
                  EDenies (if is_False (PBool true) then PStr ""
                           else PBool true)])).
Proof.
  apply (nested_wrappers_check_outside_in sample_action (PStr "read")
           (PStr "edit") FormA FormB [PStr "x"]
           (mkRequest (Some alice) sample_manager) [] (Some alice)
           (PBool true) (PBool true)); try reflexivity; discriminate.
Defined.

End security_methods.

(** * Properties of the configuration helpers *)

Section util_facts.

Import util.

Implicit Types (conf items live : section) (k : string) (v : cval).

Lemma as_dict_snoc items k v :
  as_dict (items ++ [(k, v)]) = <[k := v]> (as_dict items).
Proof. unfold as_dict. by rewrite foldl_app. Qed.

Lemma as_dict_filter (P : string → Prop) `{!∀ k, Decision (P k)} conf k :
  as_dict (filter (fun kv => P kv.1) conf) !! k
  = if decide (P k) then as_dict conf !! k else None.
Proof.
  induction conf as [|[k0 v0] conf IH] using rev_ind.
  - unfold as_dict. simpl. rewrite lookup_empty. by destruct (decide (P k)).
  - rewrite list.filter_app, as_dict_snoc.
    rewrite list.filter_cons, list.filter_nil. simpl.
    destruct (decide (P k0)) as [Hk0|Hk0].
    + rewrite as_dict_snoc. destruct (decide (k0 = k)) as [->|Hne].
      * rewrite !lookup_insert_eq. by rewrite decide_True.
      * by rewrite !lookup_insert_ne.
    + rewrite app_nil_r, IH. destruct (decide (P k)) as [Hk|Hk]; [|done].
      rewrite lookup_insert_ne; [done|]. by intros ->.
Qed.

Lemma getitem_Some conf k v : get conf k = Some v → getitem conf k = Ok v.
Proof. unfold getitem. by intros ->. Qed.

Lemma getitem_None conf k : get conf k = None → getitem conf k = Raise "KeyError".
Proof. unfold getitem. by intros ->. Qed.

End util_facts.

Section get_database_claims.

Import util.

Variable load_object : cval → result pyobj.

(** X14 — No database.  [get_database] raises [KeyError] when the section
    has no [activated] entry, whatever else it holds; with an [activated]
    entry it returns [None] when that entry is false, when there is no
    [metadata] entry and when the [metadata] entry is empty, and then the
    metadata reference is not loaded and no [uri] is needed. *)
Theorem get_database_without_database (conf : section) (debug : cval) :
  (get conf "activated" = None →
   get_database load_object conf debug = Raise "KeyError") ∧
  (∀ a, get conf "activated" = Some a → truthy a = false →
        get_database load_object conf debug = Ok None) ∧
  (∀ a, get conf "activated" = Some a → get conf "metadata" = None →
        get_database load_object conf debug = Ok None) ∧
  (∀ a md, get conf "activated" = Some a → get conf "metadata" = Some md →
           truthy md = false →
           get_database load_object conf debug = Ok None).
Proof.
  unfold get_database. split_and!.
  - intros Ha. by rewrite (getitem_None _ _ Ha).
  - intros a Ha Ht. rewrite (getitem_Some _ _ _ Ha). simpl. by rewrite Ht.
  - intros a Ha Hm. rewrite (getitem_Some _ _ _ Ha), Hm. simpl.
    by rewrite orb_true_r.
  - intros a md Ha Hm Ht. rewrite (getitem_Some _ _ _ Ha), Hm. simpl.
    rewrite Ht. by rewrite orb_true_r.
Qed.

(** X15 — An activated database.  When [activated] and [metadata] are
    true as truth values: an exception raised while loading the metadata
    reference is raised by [get_database]; otherwise a missing [uri] raises
    [KeyError]; otherwise the result holds the loaded object, the [uri]
    entry, the [debug] argument (not the [debug] entry of the section) and
    engine settings that have exactly the entries of the section other
    than [uri], [activated], [metadata], [debug] and [populate]. *)
Theorem get_database_activated (conf : section) (debug a md : cval) :
  get conf "activated" = Some a → truthy a = true →
  get conf "metadata" = Some md → truthy md = true →
  (∀ e, load_object md = Raise e →
        get_database load_object conf debug = Raise e) ∧
  (∀ obj, load_object md = Ok obj → get conf "uri" = None →
          get_database load_object conf debug = Raise "KeyError") ∧
  (∀ obj uri, load_object md = Ok obj → get conf "uri" = Some uri →
     ∃ db, get_database load_object conf debug = Ok (Some db) ∧
           db_metadata db = obj ∧ db_uri db = uri ∧ db_debug db = debug ∧
           (∀ k, k ∈ reserved → db_engine_conf db !! k = None) ∧
           (∀ k, k ∉ reserved → db_engine_conf db !! k = get conf k)).
Proof.
  intros Ha Hta Hm Htm. unfold get_database.
  rewrite (getitem_Some _ _ _ Ha), Hm. simpl. rewrite Hta, Htm. simpl.
  split_and!.
  - by intros e ->.
  - intros obj -> Hu. simpl. by rewrite (getitem_None _ _ Hu).
  - intros obj uri -> Hu. simpl. rewrite (getitem_Some _ _ _ Hu). simpl.
    eexists. split; [done|]. simpl. split_and!; [done..| |].
    + intros k Hk.
      etrans; [exact (as_dict_filter (fun k => k ∉ reserved) conf k)|].
      by rewrite decide_False by auto.
    + intros k Hk.
      etrans; [exact (as_dict_filter (fun k => k ∉ reserved) conf k)|].
      by rewrite decide_True.
Qed.

End get_database_claims.

Lemma get_database_activated_witness :
  (∀ e, sample_load_object (util.CStr "app.models:archive") = util.Raise e →
        util.get_database sample_load_object sample_archive (util.CBool false)
        = util.Raise e) ∧
  (∀ obj, sample_load_object (util.CStr "app.models:archive") = util.Ok obj →
          util.get sample_archive "uri" = None →
          util.get_database sample_load_object sample_archive
            (util.CBool false)
          = util.Raise "KeyError") ∧
  (∀ obj uri,
     sample_load_object (util.CStr "app.models:archive") = util.Ok obj →
     util.get sample_archive "uri" = Some uri →
     ∃ db, util.get_database sample_load_object sample_archive
             (util.CBool false) = util.Ok (Some db) ∧
           util.db_metadata db = obj ∧ util.db_uri db = uri ∧
           util.db_debug db = util.CBool false ∧
           (∀ k, k ∈ util.reserved → util.db_engine_conf db !! k = None) ∧
           (∀ k, k ∉ util.reserved →
                 util.db_engine_conf db !! k = util.get sample_archive k)).
Proof.
  apply (get_database_activated sample_load_object sample_archive
           (util.CBool false) (util.CBool true)
           (util.CStr "app.models:archive")); vm_compute; reflexivity.
Defined.

Section collect_facts.

Import util.

Variable load_object : cval → result pyobj.

Implicit Types (conf items live : section) (k : string) (v : cval).





End collect_facts.

Section activate_facts.

Import util.

Variable load_object : cval → result pyobj.

Implicit Types (conf items live : section) (k : string) (v : cval).




End activate_facts.



Section activate_claims.

Import util.

#[local] Set Warnings "-clear-no-such-hyp".




End activate_claims.

